(** * excel-vision-rag: image extraction and row melting of [function_app.py]

    A shallow embedding of the pure core of [src/function_app.py]:
    the column codec [colnum_to_excel_col], the relationship walk that
    fills [image_map], the table melt [melt_merged_rows] and the loop
    that joins images to records. *)

From Equations Require Import Equations.
From Stdlib Require Import List ZArith QArith Lia Bool Ascii String Sorted.
From Stdlib Require Import DecimalString Permutation.
From Stdlib Require DecimalZ DecimalPos Finite.
Import ListNotations.

Local Open Scope Z_scope.
Local Open Scope string_scope.
Local Open Scope list_scope.

(** ** Errors

    The script has no [try]: an exception raised anywhere ends the run.
    Fallible steps return a [result]. *)

Inductive exn : Type :=
| KeyError (key : string)
| ValueError
| OverflowError.

Inductive result (A : Type) : Type :=
| Ok (a : A)
| Raise (e : exn).
Arguments Ok {A} a.
Arguments Raise {A} e.

Definition bind {A B} (m : result A) (k : A -> result B) : result B :=
  match m with
  | Ok a => k a
  | Raise e => Raise e
  end.

Notation "x <- m ;; k" := (bind m (fun x => k))
  (at level 61, m at next level, right associativity).

(** ** Column codec *)

Module Codec.

(** [chr(col_num % 26 + ord("A"))] *)
Definition letter (col_num : Z) : ascii :=
  ascii_of_nat (Z.to_nat (col_num mod 26 + 65)).

(** The [while col_num >= 0] loop of [colnum_to_excel_col]; [result] is
    the accumulator the letters are prepended to. *)
Equations? colnum_loop (col_num : Z) (result : string) : string
  by wf (Z.to_nat (col_num + 1)) lt :=
  colnum_loop col_num result with Z_le_gt_dec 0 col_num => {
    | left _ := colnum_loop (col_num / 26 - 1) (String (letter col_num) result);
    | right _ := result }.
Proof.
  assert (col_num / 26 <= col_num) by (apply Z.div_le_upper_bound; lia).
  lia.
Qed.

Definition colnum_to_excel_col (col_num : Z) : string :=
  colnum_loop col_num "".

(** Reference decoding of bijective base-26: each letter is a digit in
    1..26, most significant first; the zero-based index is the value
    minus one. *)
Definition digit_of (c : ascii) : Z := Z.of_nat (nat_of_ascii c) - 64.

Fixpoint b26_value (acc : Z) (s : string) : Z :=
  match s with
  | EmptyString => acc
  | String c s' => b26_value (acc * 26 + digit_of c) s'
  end.

Definition excel_col_to_colnum (s : string) : Z := b26_value 0 s - 1.

End Codec.

(** ** Python string methods used by the script *)

Module Str.

(** [s.startswith(p)] *)
Definition startswith (p s : string) : bool := String.prefix p s.

(** [s.endswith(suf)]: some suffix of [s] is [suf]. *)
Fixpoint endswith (suf s : string) : bool :=
  if String.eqb s suf then true
  else match s with
       | EmptyString => false
       | String _ s' => endswith suf s'
       end.

(** [s.split("/")[-1]]: the text after the last slash; [seg] is the
    segment read so far. [os.path.basename] is the same function on a
    POSIX host. *)
Fixpoint last_segment_from (seg s : string) : string :=
  match s with
  | EmptyString => seg
  | String c s' =>
      if Ascii.eqb c "/" then last_segment_from "" s'
      else last_segment_from (seg ++ String c "")%string s'
  end.

Definition last_segment (s : string) : string := last_segment_from "" s.
Definition basename (s : string) : string := last_segment s.

(** [s.replace(old, "")] for a non-empty [old]: occurrences are removed
    left to right without overlap; [skip] counts the characters of a
    match still to be dropped. *)
Fixpoint remove_from (old : string) (skip : nat) (s : string) : string :=
  match s with
  | EmptyString => EmptyString
  | String c s' =>
      match skip with
      | S k => remove_from old k s'
      | O => if String.prefix old s
             then remove_from old (String.length old - 1) s'
             else String c (remove_from old O s')
      end
  end.

Definition remove_all (old s : string) : string := remove_from old O s.

(** [str(n)] for an [int]. *)
Definition str_of_int (n : Z) : string := NilZero.string_of_int (Z.to_int n).

(** ["\n".join(parts)] and friends. *)
Definition join (sep : string) (parts : list string) : string :=
  String.concat sep parts.

(** The white space that [int] skips around a literal in a text of
    ASCII characters: tab, line feed, vertical tab, form feed, carriage
    return and the space. The separators 0x1C-0x1F are not skipped. *)
Definition is_space (c : ascii) : bool :=
  let n := nat_of_ascii c in
  ((9 <=? n) && (n <=? 13) || (n =? 32))%nat.

Fixpoint lstrip (s : string) : string :=
  match s with
  | EmptyString => EmptyString
  | String c s' => if is_space c then lstrip s' else s
  end.

Fixpoint rstrip (s : string) : string :=
  match s with
  | EmptyString => EmptyString
  | String c s' =>
      match rstrip s' with
      | EmptyString => if is_space c then EmptyString else String c EmptyString
      | r => String c r
      end
  end.

Definition is_digit (c : ascii) : bool :=
  let n := nat_of_ascii c in ((48 <=? n) && (n <=? 57))%nat.

(** Decimal digits with single underscores between digits; [prev]
    tells whether the previous character was a digit. *)
Fixpoint parse_digits (acc : Z) (prev : bool) (s : string) : option Z :=
  match s with
  | EmptyString => if prev then Some acc else None
  | String c s' =>
      if is_digit c
      then parse_digits (acc * 10 + (Z.of_nat (nat_of_ascii c) - 48)) true s'
      else if Ascii.eqb c "_"
           then (if prev then parse_digits acc false s' else None)
           else None
  end.

(** [int(s)] on a [str] of ASCII characters: [None] stands for
    [ValueError]. A text with other characters is not read here: there
    [int] consults the Unicode tables of the interpreter. *)
Definition int_of_ascii (s : string) : option Z :=
  match rstrip (lstrip s) with
  | String "-" d => option_map Z.opp (parse_digits 0 false d)
  | String "+" d => parse_digits 0 false d
  | d => parse_digits 0 false d
  end.


End Str.

(** ** Dictionaries

    Python dictionaries keep insertion order, and the script iterates
    over two of them, so they are association lists in insertion order
    with at most one entry per key. *)

Section Dict.
Context {K V : Type}.
Variable eqb : K -> K -> bool.

(** [d.get(k)] *)
Fixpoint dict_get (k : K) (d : list (K * V)) : option V :=
  match d with
  | [] => None
  | (k', v) :: d' => if eqb k k' then Some v else dict_get k d'
  end.

(** [d[k] = v]: an existing key keeps its place. *)
Fixpoint dict_set (k : K) (v : V) (d : list (K * V)) : list (K * V) :=
  match d with
  | [] => [(k, v)]
  | (k', v') :: d' =>
      if eqb k k' then (k', v) :: d' else (k', v') :: dict_set k v d'
  end.
End Dict.

Section DictAppend.
Context {K V : Type}.
Variable eqb : K -> K -> bool.

(** [d.setdefault(k, []).append(v)] *)
Fixpoint setdefault_append (k : K) (v : V) (d : list (K * list V))
  : list (K * list V) :=
  match d with
  | [] => [(k, [v])]
  | (k', vs) :: d' =>
      if eqb k k' then (k', vs ++ [v]) :: d'
      else (k', vs) :: setdefault_append k v d'
  end.
End DictAppend.

Definition sget {V} := @dict_get string V String.eqb.
Definition sset {V} := @dict_set string V String.eqb.

Fixpoint foldM {A B} (f : B -> A -> result B) (l : list A) (b : B) : result B :=
  match l with
  | [] => Ok b
  | x :: l' => b' <- f b x ;; foldM f l' b'
  end.

(** ** The package and the image scan (lines 40-186) *)

Module Images.
Import Codec Str.

(** A [<Relationship Id Type Target>] element of a [.rels] part. *)
Record Relationship : Type := {
  rel_Id : string;
  rel_Type : string;
  rel_Target : string }.

(** A [<sheet r:id name>] element of [xl/workbook.xml]. *)
Record SheetElt : Type := {
  sheet_rid : string;
  sheet_name_attr : string }.

(** A [xdr:twoCellAnchor]: the parsed [xdr:from/xdr:col] and
    [xdr:from/xdr:row], and its first [a:blip], if any, with the
    [r:embed] attribute, if any. *)
Record Anchor : Type := {
  from_col : Z;
  from_row : Z;
  blip : option (option string) }.

(** The archive as the script reads it: the entry names in archive
    order, the two workbook parts ([None] when the entry is absent, in
    which case [z.open] raises), and the parsed content of the
    relationship and drawing entries by entry name. *)
Record Package : Type := {
  namelist : list string;
  workbook_xml : option (list SheetElt);
  workbook_xml_rels : option (list Relationship);
  rels_of : string -> list Relationship;
  anchors_of : string -> list Anchor }.

Definition open_part {A} (name : string) (part : option A) : result A :=
  match part with
  | Some a => Ok a
  | None => Raise (KeyError name)
  end.

(** Lines 49-58. *)
Definition sheet_id_to_name (sheets : list SheetElt) : list (string * string) :=
  fold_left (fun d sheet => sset (sheet_rid sheet) (sheet_name_attr sheet) d)
            sheets [].

(** Lines 61-75. *)
Definition rId_to_sheet_file (rels : list Relationship)
  : list (string * string) :=
  fold_left (fun d rel =>
               if endswith "/worksheet" (rel_Type rel)
               then sset (rel_Id rel) (last_segment (rel_Target rel)) d
               else d)
            rels [].

(** Lines 78-97. *)
Definition sheet_to_drawing (pkg : Package) : list (string * string) :=
  fold_left
    (fun d f =>
       if startswith "xl/worksheets/_rels/" f && endswith ".xml.rels" f
       then fold_left
              (fun d rel =>
                 if endswith "/drawing" (rel_Type rel)
                 then let sheet_file := remove_all ".rels" (last_segment f) in
                      sset sheet_file (last_segment (rel_Target rel)) d
                 else d)
              (rels_of pkg f) d
       else d)
    (namelist pkg) [].

(** Lines 100-117. *)
Definition drawing_to_rId_image (pkg : Package)
  : list (string * list (string * string)) :=
  fold_left
    (fun d f =>
       if startswith "xl/drawings/_rels/" f && endswith ".xml.rels" f
       then let drawing_file := remove_all ".rels" (last_segment f) in
            sset drawing_file
                 (fold_left
                    (fun t rel =>
                       if endswith "/image" (rel_Type rel)
                       then sset (rel_Id rel) (basename (rel_Target rel)) t
                       else t)
                    (rels_of pkg f) [])
                 d
       else d)
    (namelist pkg) [].

(** Lines 128-135: the first worksheet relationship whose sheet file
    owns [drawing_name]; its id is then looked up with a subscript,
    which raises when the workbook declares no sheet with that id. *)
Fixpoint find_sheet_name (s2n s2d : list (string * string))
         (drawing_name : string) (items : list (string * string))
  : result (option string) :=
  match items with
  | [] => Ok None
  | (rId, sheet_file) :: items' =>
      match sget sheet_file s2d with
      | Some d =>
          if String.eqb d drawing_name
          then match sget rId s2n with
               | Some name => Ok (Some name)
               | None => Raise (KeyError rId)
               end
          else find_sheet_name s2n s2d drawing_name items'
      | None => find_sheet_name s2n s2d drawing_name items'
      end
  end.

Definition image_output_dir : string := "json_output/image".

Definition key_eqb (a b : string * Z) : bool :=
  String.eqb (fst a) (fst b) && Z.eqb (snd a) (snd b).

(** [image_map], and the names of the files written, in order. *)
Record Registry : Type := {
  image_map : list ((string * Z) * list string);
  saved : list string }.

Definition empty_registry : Registry := {| image_map := []; saved := [] |}.


(** Line 154. *)
Definition cell_name (col row : Z) : string :=
  (colnum_to_excel_col col ++ str_of_int (row + 1))%string.

(** Line 172. *)
Definition save_name (sheet_name cell image_file : string) : string :=
  (sheet_name ++ "_" ++ cell ++ "_" ++ image_file)%string.

(** [str(image_output_dir / save_name)] for a name without separators. *)
Definition save_path (name : string) : string :=
  (image_output_dir ++ "/" ++ name)%string.

(** Line 166: [drawing_to_rId_image.get(drawing_name, {}).get(rId)]. *)
Definition lookup_image (d2i : list (string * list (string * string)))
           (drawing_name : string) (rId : option string) : option string :=
  match sget drawing_name d2i, rId with
  | Some t, Some id => sget id t
  | _, _ => None
  end.

(** Lines 149-186, one anchor. *)
Definition scan_anchor (pkg : Package)
           (d2i : list (string * list (string * string)))
           (drawing_name sheet_name : string)
           (reg : Registry) (anchor : Anchor) : Registry :=
  let col := from_col anchor in
  let row := from_row anchor in
  match blip anchor with
  | None => reg
  | Some rId =>
      match lookup_image d2i drawing_name rId with
      | None => reg
      | Some EmptyString => reg
      | Some image_file =>
          let media_path := ("xl/media/" ++ image_file)%string in
          if existsb (String.eqb media_path) (namelist pkg)
          then let name := save_name sheet_name (cell_name col row) image_file in
               {| image_map :=
                    setdefault_append key_eqb (sheet_name, row + 1)
                                      (save_path name) (image_map reg);
                  saved := saved reg ++ [name] |}
          else reg
      end
  end.

(** Lines 125-186, one drawing part. *)
Definition scan_drawing (pkg : Package)
           (s2n rel2sheet s2d : list (string * string))
           (d2i : list (string * list (string * string)))
           (reg : Registry) (drawing_xml : string) : result Registry :=
  let drawing_name := last_segment drawing_xml in
  sheet_name <- find_sheet_name s2n s2d drawing_name rel2sheet ;;
  match sheet_name with
  | None => Ok reg
  | Some EmptyString => Ok reg
  | Some name =>
      Ok (fold_left (scan_anchor pkg d2i drawing_name name)
                    (anchors_of pkg drawing_xml) reg)
  end.

Definition is_drawing_part (f : string) : bool :=
  startswith "xl/drawings/drawing" f && endswith ".xml" f.

(** Lines 41-186. *)
Definition extract_images (pkg : Package) : result Registry :=
  sheets <- open_part "xl/workbook.xml" (workbook_xml pkg) ;;
  rels <- open_part "xl/_rels/workbook.xml.rels" (workbook_xml_rels pkg) ;;
  let s2n := sheet_id_to_name sheets in
  let rel2sheet := rId_to_sheet_file rels in
  let s2d := sheet_to_drawing pkg in
  let d2i := drawing_to_rId_image pkg in
  foldM (scan_drawing pkg s2n rel2sheet s2d d2i)
        (filter is_drawing_part (namelist pkg))
        empty_registry.

End Images.

Fixpoint mapM {A B} (f : A -> result B) (l : list A) : result (list B) :=
  match l with
  | [] => Ok []
  | x :: l' => y <- f x ;; ys <- mapM f l' ;; Ok (y :: ys)
  end.

(** ** The table and [melt_merged_rows] (lines 188-237) *)

Module Melt.
Import Str.

(** A cell as [read_excel] delivers it: nothing ([NaN]), a number or a
    text. A number is the exact value of the stored float. *)
Inductive Cell : Type :=
| Blank
| Num (q : Q)
| Text (s : string).

(** [Series.notna] on one cell. *)
Definition notna (c : Cell) : bool :=
  match c with
  | Blank => false
  | _ => true
  end.

(** A data row of one sheet, under the five fixed headers. *)
Record RawRow : Type := {
  raw_cls : Cell;       (* 分類 *)
  raw_item : Cell;      (* 項目 *)
  raw_no : Cell;        (* No. *)
  raw_question : Cell;  (* 質問 *)
  raw_answer : Cell     (* 回答 *) }.

(** The same with the sheet-name column of line 193. *)
Record Row : Type := {
  r_sheet : string;
  r_cls : Cell;
  r_item : Cell;
  r_no : Cell;
  r_question : Cell;
  r_answer : Cell }.

(** A frame is its rows in order, each with its index label. *)
Definition DataFrame : Type := list (Z * Row).

Definition with_sheet (sheet_name : string) (r : RawRow) : Row :=
  {| r_sheet := sheet_name;
     r_cls := raw_cls r; r_item := raw_item r; r_no := raw_no r;
     r_question := raw_question r; r_answer := raw_answer r |}.

(** [pd.concat(df_list, ignore_index=True)]: the rows of all frames in
    order, relabelled 0, 1, 2, ... *)
Definition concat_ignore_index (df_list : list (list Row)) : DataFrame :=
  let rows := List.concat df_list in
  combine (map Z.of_nat (seq 0 (List.length rows))) rows.

(** Lines 190-195; [excel_file] is the mapping from sheet name to sheet
    rows, in workbook order. A workbook has at least one sheet, so the
    error of [pd.concat] on an empty list does not arise. *)
Definition df_all (excel_file : list (string * list RawRow)) : DataFrame :=
  concat_ignore_index
    (map (fun sh => map (with_sheet (fst sh)) (snd sh)) excel_file).

(** [Series.ffill]: a blank takes the last value seen above it. *)
Fixpoint ffill_from (last : Cell) (col : list Cell) : list Cell :=
  match col with
  | [] => []
  | c :: col' =>
      let v := if notna c then c else last in
      v :: ffill_from v col'
  end.

Definition ffill (col : list Cell) : list Cell := ffill_from Blank col.

(** [Series.cumsum] of a boolean column. *)
Fixpoint cumsum_from (acc : nat) (col : list bool) : list nat :=
  match col with
  | [] => []
  | b :: col' =>
      let acc' := if b then S acc else acc in
      acc' :: cumsum_from acc' col'
  end.

Definition cumsum (col : list bool) : list nat := cumsum_from 0 col.

(** [df[name]] and [df[name] = values]. *)
Definition column (get : Row -> Cell) (df : DataFrame) : list Cell :=
  map (fun ir => get (snd ir)) df.

Definition assign (set : Cell -> Row -> Row) (df : DataFrame)
           (values : list Cell) : DataFrame :=
  map (fun p => (fst (fst p), set (snd p) (snd (fst p)))) (combine df values).

Definition set_cls (v : Cell) (r : Row) : Row :=
  {| r_sheet := r_sheet r; r_cls := v; r_item := r_item r; r_no := r_no r;
     r_question := r_question r; r_answer := r_answer r |}.
Definition set_item (v : Cell) (r : Row) : Row :=
  {| r_sheet := r_sheet r; r_cls := r_cls r; r_item := v; r_no := r_no r;
     r_question := r_question r; r_answer := r_answer r |}.
Definition set_no (v : Cell) (r : Row) : Row :=
  {| r_sheet := r_sheet r; r_cls := r_cls r; r_item := r_item r; r_no := v;
     r_question := r_question r; r_answer := r_answer r |}.

(** Lines 212-213. *)
Definition fill_ids (df : DataFrame) : DataFrame :=
  let filled_cls := ffill (column r_cls df) in
  let filled_item := ffill (column r_item df) in
  let filled_no := ffill (column r_no df) in
  assign set_no (assign set_item (assign set_cls df filled_cls) filled_item)
         filled_no.

(** A row of [df_filled] once [grp] and [original_row] are attached. *)
Record MeltRow : Type := {
  m_row : Row;
  m_grp : nat;
  m_original_row : Z }.

(** Lines 212-218. *)
Definition df_filled (df : DataFrame) : list MeltRow :=
  let filled := fill_ids df in
  let grp := cumsum (map notna (column r_cls df)) in
  let original_row := map (fun ir => fst ir + 2) filled in
  map (fun p => {| m_row := snd (fst (fst p));
                   m_grp := snd (fst p);
                   m_original_row := snd p |})
      (combine (combine filled grp) original_row).

(** [groupby("grp", sort=False)]: groups in order of first appearance,
    each with its rows in frame order. *)
Definition groupby (rows : list MeltRow) : list (nat * list MeltRow) :=
  fold_left (fun gs m => setdefault_append Nat.eqb (m_grp m) m gs) rows [].

(** The ["first"] aggregate: the first value that is not null. *)
Fixpoint first (col : list Cell) : Cell :=
  match col with
  | [] => Blank
  | c :: col' => if notna c then c else first col'
  end.

(** One row of the aggregate of lines 220-232. *)
Record Agg : Type := {
  a_sheet : string;
  a_cls : Cell;
  a_item : Cell;
  a_no : Cell;
  a_question : string;
  a_answer : string;
  a_original_row : list Z }.

(** Two steps of [astype(int)] are not fixed by the script but by the
    interpreter and the platform, and are parameters of the model.
    [int_of_text] is [int] on a [str], [None] standing for its
    [ValueError]: on a text with characters outside ASCII it reads the
    decimal digits and the white space of the interpreter's Unicode
    tables. [cast_overflow] is what the cast does with an integer that
    does not fit the 64-bit result: an object column raises
    [OverflowError]; a float column raises nothing and stores the
    integer the processor's conversion leaves. *)
Record IntCast : Type := {
  int_of_text : string -> option Z;
  cast_overflow : Z -> result Z }.


(** The range of the 64-bit integer that [int] names as a dtype. *)
Definition in_int64 (z : Z) : bool :=
  ((-9223372036854775808 <=? z) && (z <=? 9223372036854775807))%Z.

(** The integer of a cell before it is stored: a number is truncated
    toward zero, a text is read by [int], and a blank ([NaN]) has no
    integer ([None] stands for the [ValueError]). *)
Definition int_value (cast : IntCast) (c : Cell) : option Z :=
  match c with
  | Blank => None
  | Num q => Some (Z.quot (Qnum q) (Zpos (Qden q)))
  | Text s => int_of_text cast s
  end.

(** Storing the integer in the 64-bit column. *)
Definition narrow (cast : IntCast) (z : Z) : result Z :=
  if in_int64 z then Ok z else cast_overflow cast z.

(** [astype(int)] on one cell. *)
Definition to_int (cast : IntCast) (c : Cell) : result Z :=
  match int_value cast c with
  | Some z => narrow cast z
  | None => Raise ValueError
  end.

(** An emitted merge group: [No.] is an integer. *)
Record MergeGroup : Type := {
  g_sheet : string;
  g_cls : Cell;
  g_item : Cell;
  g_no : Z;
  g_question : string;
  g_answer : string;
  g_original_row : list Z }.

(** [.astype({"No.": int})] on one row of the aggregate. *)
Definition astype_no_int (cast : IntCast) (a : Agg) : result MergeGroup :=
  n <- to_int cast (a_no a) ;;
  Ok {| g_sheet := a_sheet a; g_cls := a_cls a; g_item := a_item a;
        g_no := n; g_question := a_question a; g_answer := a_answer a;
        g_original_row := a_original_row a |}.

Section WithStr.
Variable cast : IntCast.
(** [str] of a numeric cell; its digits depend on the column dtype
    and no property below needs them. *)
Variable str_of_num : Q -> string.

(** [astype(str)] on one cell. *)
Definition astype_str (c : Cell) : string :=
  match c with
  | Text s => s
  | Num q => str_of_num q
  | Blank => "nan"
  end.

(** [lambda s: "\n".join(s.dropna().astype(str))] *)
Definition join_text (col : list Cell) : string :=
  join (String "010" EmptyString) (map astype_str (filter notna col)).

(** The [agg] dictionary applied to the rows of one group. *)
Definition agg_group (rows : list MeltRow) : Agg :=
  {| a_sheet := hd EmptyString (map (fun m => r_sheet (m_row m)) rows);
     a_cls := first (map (fun m => r_cls (m_row m)) rows);
     a_item := first (map (fun m => r_item (m_row m)) rows);
     a_no := first (map (fun m => r_no (m_row m)) rows);
     a_question := join_text (map (fun m => r_question (m_row m)) rows);
     a_answer := join_text (map (fun m => r_answer (m_row m)) rows);
     a_original_row := map m_original_row rows |}.

(** Lines 212-232: the aggregate before the integer conversion. *)
Definition melt_agg (df : DataFrame) : list Agg :=
  map (fun g => agg_group (snd g)) (groupby (df_filled df)).

(** Lines 199-234. *)
Definition melt_merged_rows (df : DataFrame) : result (list MergeGroup) :=
  mapM (astype_no_int cast) (melt_agg df).
End WithStr.

End Melt.

(** ** Record assembly (lines 237-252) *)

Module Assemble.
Import Str Images Melt.

Record QARecord : Type := {
  q_sheet : string;
  q_cls : Cell;
  q_item : Cell;
  q_no : Z;
  q_question : string;
  q_answer : string;
  image_urls : list string }.

(** Lines 244-247. *)
Definition images_for (image_map : list ((string * Z) * list string))
           (sheet : string) (original_rows : list Z) : list string :=
  flat_map (fun entry =>
              let img_sheet := fst (fst entry) in
              let img_row := snd (fst entry) in
              if String.eqb img_sheet sheet
                 && existsb (Z.eqb img_row) original_rows
              then snd entry else [])
           image_map.

(** The key of an [image_map] entry selects a group: same sheet, and a
    row among the group's original rows (line 246). *)
Definition joins (key : string * Z) (g : MergeGroup) : Prop :=
  fst key = g_sheet g /\ In (snd key) (g_original_row g).

Definition record_of (image_map : list ((string * Z) * list string))
           (g : MergeGroup) : QARecord :=
  {| q_sheet := g_sheet g; q_cls := g_cls g; q_item := g_item g;
     q_no := g_no g; q_question := g_question g; q_answer := g_answer g;
     image_urls := images_for image_map (g_sheet g) (g_original_row g) |}.

(** Line 250. *)
Definition json_name (stem : string) (g : MergeGroup) : string :=
  (stem ++ "_" ++ g_sheet g ++ "_QA_" ++ str_of_int (g_no g) ++ ".json")%string.

(** The whole script: the files written, as (name, record) pairs. *)
Definition run (cast : IntCast) (str_of_num : Q -> string) (stem : string)
           (pkg : Package) (excel_file : list (string * list RawRow))
  : result (list (string * QARecord)) :=
  reg <- extract_images pkg ;;
  organized_df <- melt_merged_rows cast str_of_num (df_all excel_file) ;;
  Ok (map (fun g => (json_name stem g, record_of (image_map reg) g))
          organized_df).

End Assemble.

(** ** The melt read as one pass

    The column operations of [melt_merged_rows] build the same frame as
    one pass over the rows that carries the last value seen in each
    identifying column and the running group count; [groupby] then cuts
    the frame where the count changes. These are used to reason about
    the column-wise definitions above. *)

Module Pass.
Import Melt.

Definition fill (c last : Cell) : Cell := if notna c then c else last.

Fixpoint scan (last_cls last_item last_no : Cell) (count : nat)
         (df : DataFrame) : list MeltRow :=
  match df with
  | [] => []
  | (i, r) :: df' =>
      let c := fill (r_cls r) last_cls in
      let it := fill (r_item r) last_item in
      let no := fill (r_no r) last_no in
      let count' := if notna (r_cls r) then S count else count in
      {| m_row := {| r_sheet := r_sheet r; r_cls := c; r_item := it;
                     r_no := no; r_question := r_question r;
                     r_answer := r_answer r |};
         m_grp := count';
         m_original_row := i + 2 |}
        :: scan c it no count' df'
  end.

(** The group count after the rows of [df]. *)
Fixpoint count_after (count : nat) (df : DataFrame) : nat :=
  match df with
  | [] => count
  | (i, r) :: df' =>
      count_after (if notna (r_cls r) then S count else count) df'
  end.

(** Rows labelled [k], [k+1], ... *)
Definition labelled (k : nat) (rows : list Row) : DataFrame :=
  combine (map Z.of_nat (seq k (List.length rows))) rows.

(** The groups of a frame whose open group has key [k] and rows [cur]. *)
Fixpoint blocks (k : nat) (cur : list MeltRow) (rows : list MeltRow)
  : list (nat * list MeltRow) :=
  match rows with
  | [] => [(k, cur)]
  | m :: rows' =>
      if Nat.eqb (m_grp m) k then blocks k (cur ++ [m]) rows'
      else (k, cur) :: blocks (m_grp m) [m] rows'
  end.

(** The groups of a frame, first to last. *)
Definition groups_of (rows : list MeltRow) : list (nat * list MeltRow) :=
  match rows with
  | [] => []
  | m :: rows' => blocks (m_grp m) [m] rows'
  end.

(** One step of [groupby]: the row joins the group of its key. *)
Definition step (gs : list (nat * list MeltRow)) (m : MeltRow)
  : list (nat * list MeltRow) :=
  setdefault_append Nat.eqb (m_grp m) m gs.

(** Keys that never decrease, starting at or above [k]. *)
Fixpoint nondecr (k : nat) (rows : list MeltRow) : Prop :=
  match rows with
  | [] => True
  | m :: rows' => (k <= m_grp m)%nat /\ nondecr (m_grp m) rows'
  end.

(** The rows of a frame above its first row with a classification. *)
Fixpoint leading_blank (df : DataFrame) : DataFrame :=
  match df with
  | [] => []
  | (i, r) :: df' =>
      if notna (r_cls r) then [] else (i, r) :: leading_blank df'
  end.

End Pass.

(** ** Reference notions of the specification *)

Module Ref.
Import Melt.

(** The running count, up to and including row [i], of the rows whose
    cell in [col] is not blank. *)
Definition running_count (col : list Cell) (i : nat) : nat :=
  List.length (filter notna (firstn (S i) col)).

(** The nearest non-blank value at or above row [i] of [col]. *)
Definition nearest_above (col : list Cell) (i : nat) : Cell :=
  first (rev (firstn (S i) col)).

(** The column of the concatenated table under a header. *)
Definition raw_column (get : RawRow -> Cell)
           (excel_file : list (string * list RawRow)) : list Cell :=
  List.concat (map (fun sh => map get (snd sh)) excel_file).

(** Forward-fill that stays inside each sheet. *)
Definition ffill_per_sheet (get : RawRow -> Cell)
           (excel_file : list (string * list RawRow)) : list Cell :=
  List.concat (map (fun sh => ffill (map get (snd sh))) excel_file).

(** Row numbers that restart at each sheet: the 1-based position on the
    sheet plus the one header row. *)
Definition sheet_row_numbers (excel_file : list (string * list RawRow))
  : list Z :=
  List.concat
    (map (fun sh => map (fun i => Z.of_nat i + 2)
                        (seq 0 (List.length (snd sh))))
         excel_file).


End Ref.

(** ** Reading the image index *)

Module Index.
Import Images.

(** [image_map.get(key, [])] *)
Definition paths_at (key : string * Z)
           (image_map : list ((string * Z) * list string)) : list string :=
  match dict_get key_eqb key image_map with
  | Some paths => paths
  | None => []
  end.

End Index.

(** ** Credentials of the uploader (sharepoint_uploader.py, lines 40-75) *)

Module Uploader.
Import Str.

Record SharePointCredentials : Type := {
  client_id : string;
  client_secret : string;
  tenant_id : string;
  site_info_url : string }.

(** [os.environ.get(name) or ""]; [environ] is the environment once
    [load_dotenv] has run. *)
Definition env_or_empty (environ : string -> option string) (name : string)
  : string :=
  match environ name with
  | Some v => v
  | None => EmptyString
  end.

(** [SharePointCredentials.from_env] *)
Definition from_env (environ : string -> option string)
  : SharePointCredentials :=
  {| client_id := env_or_empty environ "CLIENT_ID";
     client_secret := env_or_empty environ "CLIENT_SECRET";
     tenant_id := env_or_empty environ "TENANT_ID";
     site_info_url := env_or_empty environ "SITE_INFO_URL" |}.

(** How [validate] ends: it returns [None] or raises a [ValueError]
    with a message. *)
Inductive outcome : Type :=
| Returns
| RaisesValueError (message : string).

(** [not s] on a [str] *)
Definition is_empty (s : string) : bool := String.eqb s EmptyString.

(** The list [missing] of [validate]. *)
Definition missing (c : SharePointCredentials) : list string :=
  (if is_empty (client_id c) then ["CLIENT_ID"] else [])
  ++ (if is_empty (client_secret c) then ["CLIENT_SECRET"] else [])
  ++ (if is_empty (tenant_id c) then ["TENANT_ID"] else [])
  ++ (if is_empty (site_info_url c) then ["SITE_INFO_URL"] else []).

Definition message_prefix : string := "以下の環境変数が設定されていません: ".

(** [SharePointCredentials.validate] *)
Definition validate (c : SharePointCredentials) : outcome :=
  match missing c with
  | [] => Returns
  | names => RaisesValueError (message_prefix ++ join ", " names)%string
  end.

End Uploader.

(** ** A small workbook *)

Module Sample.
Import Images Melt.

Definition rel (id type target : string) : Relationship :=
  {| rel_Id := id; rel_Type := type; rel_Target := target |}.

(** One sheet "S1" with a drawing of four anchors: two images in row 2,
    one reference to a media part that is not in the archive, and one
    shape without a blip. *)
Definition pkg : Package :=
  {| namelist :=
       ["xl/workbook.xml"; "xl/_rels/workbook.xml.rels";
        "xl/worksheets/sheet1.xml"; "xl/worksheets/_rels/sheet1.xml.rels";
        "xl/drawings/drawing1.xml"; "xl/drawings/_rels/drawing1.xml.rels";
        "xl/media/image1.png"; "xl/media/image2.png"];
     workbook_xml :=
       Some [ {| sheet_rid := "rId1"; sheet_name_attr := "S1" |} ];
     workbook_xml_rels :=
       Some [ rel "rId1" "http://r/worksheet" "worksheets/sheet1.xml";
              rel "rId2" "http://r/styles" "styles.xml" ];
     rels_of := fun f =>
       if String.eqb f "xl/worksheets/_rels/sheet1.xml.rels"
       then [ rel "rId1" "http://r/drawing" "../drawings/drawing1.xml" ]
       else if String.eqb f "xl/drawings/_rels/drawing1.xml.rels"
       then [ rel "rId1" "http://r/image" "../media/image1.png";
              rel "rId2" "http://r/image" "../media/image2.png";
              rel "rId3" "http://r/image" "../media/image3.png" ]
       else [];
     anchors_of := fun f =>
       if String.eqb f "xl/drawings/drawing1.xml"
       then [ {| from_col := 0; from_row := 1; blip := Some (Some "rId1") |};
              {| from_col := 1; from_row := 1; blip := Some (Some "rId2") |};
              {| from_col := 0; from_row := 4; blip := Some (Some "rId3") |};
              {| from_col := 2; from_row := 2; blip := None |} ]
       else [] |}.

Definition row (c n q a : Cell) : RawRow :=
  {| raw_cls := c; raw_item := c; raw_no := n;
     raw_question := q; raw_answer := a |}.

(** The interpreter and the platform of the examples: [int] as it reads
    ASCII text (the examples hold no other text; a text with other
    characters is refused here, which [int] need not do), and the
    [OverflowError] of an object column. *)
Definition cast : IntCast :=
  {| int_of_text := Str.int_of_ascii;
     cast_overflow := fun _ => Raise OverflowError |}.

(** Two merged blocks: rows 2-3 and rows 4-5. *)
Definition excel_file : list (string * list RawRow) :=
  [("S1", [ row (Text "A") (Num (1 # 1)) (Text "q1") (Text "a1");
            row Blank Blank (Text "q1b") Blank;
            row (Text "B") (Num (2 # 1)) (Text "q2") Blank;
            row Blank Blank Blank (Text "a2") ])].

End Sample.

(** * Properties *)

(** ** Column codec *)

Module CodecFacts.
Import Codec.

Lemma colnum_loop_nonneg (col_num : Z) (result : string) :
  0 <= col_num ->
  colnum_loop col_num result =
  colnum_loop (col_num / 26 - 1) (String (letter col_num) result).
Proof.
  intros H. etransitivity; [apply colnum_loop_equation_1 |].
  destruct (Z_le_gt_dec 0 col_num); [reflexivity | lia].
Qed.

Lemma colnum_loop_neg (col_num : Z) (result : string) :
  col_num < 0 -> colnum_loop col_num result = result.
Proof.
  intros H. etransitivity; [apply colnum_loop_equation_1 |].
  destruct (Z_le_gt_dec 0 col_num); [lia | reflexivity].
Qed.

Lemma digit_of_letter (col_num : Z) :
  digit_of (letter col_num) = col_num mod 26 + 1.
Proof.
  unfold digit_of, letter.
  pose proof (Z.mod_pos_bound col_num 26 ltac:(lia)) as Hm.
  rewrite nat_ascii_embedding by lia.
  lia.
Qed.

(** The loop invariant of the decoding: reading the letters the loop
    prepends to [result] gives [col_num + 1] as the accumulator with
    which [result] is read. *)
Lemma b26_value_loop (col_num : Z) :
  0 <= col_num ->
  forall result,
    b26_value 0 (colnum_loop col_num result) = b26_value (col_num + 1) result.
Proof.
  revert col_num.
  apply (Zlt_0_ind (fun c => forall result,
           b26_value 0 (colnum_loop c result) = b26_value (c + 1) result)).
  intros c IH Hc result.
  rewrite colnum_loop_nonneg by exact Hc.
  pose proof (Z.mod_pos_bound c 26 ltac:(lia)) as Hm.
  pose proof (Z.div_mod c 26 ltac:(lia)) as Hd.
  destruct (Z_le_gt_dec 26 c) as [Hbig | Hsmall].
  - assert (1 <= c / 26) by (apply Z.div_le_lower_bound; lia).
    rewrite IH by lia.
    simpl. rewrite digit_of_letter. f_equal. lia.
  - assert (c / 26 = 0) by (apply Z.div_small; lia).
    rewrite colnum_loop_neg by lia.
    simpl. rewrite digit_of_letter. f_equal. lia.
Qed.

Lemma decode_encode (n : Z) :
  0 <= n -> excel_col_to_colnum (colnum_to_excel_col n) = n.
Proof.
  intros H. unfold excel_col_to_colnum, colnum_to_excel_col.
  rewrite b26_value_loop by exact H. simpl. lia.
Qed.

Lemma colnum_to_excel_col_inj (m n : Z) :
  0 <= m -> 0 <= n ->
  colnum_to_excel_col m = colnum_to_excel_col n -> m = n.
Proof.
  intros Hm Hn E.
  rewrite <- (decode_encode m Hm), <- (decode_encode n Hn), E.
  reflexivity.
Qed.

End CodecFacts.

(** C7: [colnum_to_excel_col] is bijective base-26 on zero-based
    indices at the five listed columns: 0 gives "A", 25 gives "Z", 26
    gives "AA", 701 gives "ZZ" and 702 gives "AAA". *)
Theorem colnum_to_excel_col_cases :
  Codec.colnum_to_excel_col 0 = "A" /\
  Codec.colnum_to_excel_col 25 = "Z" /\
  Codec.colnum_to_excel_col 26 = "AA" /\
  Codec.colnum_to_excel_col 701 = "ZZ" /\
  Codec.colnum_to_excel_col 702 = "AAA".
Proof.
  unfold Codec.colnum_to_excel_col.
  repeat split;
    repeat (rewrite CodecFacts.colnum_loop_nonneg by lia; cbn);
    rewrite CodecFacts.colnum_loop_neg by lia; reflexivity.
Qed.

(** C8: for every index [n] from 0 to 10000, decoding the letters of
    [colnum_to_excel_col n] by the bijective base-26 reference decoding
    gives [n] back. *)
Theorem colnum_roundtrip (n : Z) :
  0 <= n <= 10000 ->
  Codec.excel_col_to_colnum (Codec.colnum_to_excel_col n) = n.
Proof.
  intros [H _]. apply CodecFacts.decode_encode. exact H.
Qed.

Lemma colnum_roundtrip_witness :
  0 <= 701 <= 10000 /\
  Codec.excel_col_to_colnum (Codec.colnum_to_excel_col 701) = 701.
Proof.
  split; [lia | apply (colnum_roundtrip 701); lia].
Defined.

(** ** Cell labels and save names *)

Module NameFacts.
Import Codec Str Images.

Definition chars (s : string) : list ascii := list_ascii_of_string s.

Definition is_upper (c : ascii) : bool :=
  let n := nat_of_ascii c in ((65 <=? n) && (n <=? 90))%nat.

Lemma chars_app (s t : string) : chars (s ++ t)%string = chars s ++ chars t.
Proof.
  induction s as [| c s IH]; simpl; [reflexivity | now rewrite <- IH].
Qed.

Lemma chars_inj (s t : string) : chars s = chars t -> s = t.
Proof.
  intros E.
  rewrite <- (string_of_list_ascii_of_string s),
          <- (string_of_list_ascii_of_string t).
  unfold chars in E. now rewrite E.
Qed.

Lemma letter_upper (col_num : Z) : is_upper (letter col_num) = true.
Proof.
  unfold is_upper, letter.
  pose proof (Z.mod_pos_bound col_num 26 ltac:(lia)) as Hm.
  rewrite nat_ascii_embedding by lia.
  apply andb_true_intro; split; apply Nat.leb_le; lia.
Qed.

Lemma colnum_loop_upper (col_num : Z) :
  0 <= col_num ->
  forall result,
    Forall (fun c => is_upper c = true) (chars result) ->
    Forall (fun c => is_upper c = true) (chars (colnum_loop col_num result)).
Proof.
  revert col_num.
  apply (Zlt_0_ind (fun c => forall result,
           Forall (fun c => is_upper c = true) (chars result) ->
           Forall (fun c => is_upper c = true) (chars (colnum_loop c result)))).
  intros c IH Hc result Hr.
  rewrite CodecFacts.colnum_loop_nonneg by exact Hc.
  assert (Hnext : Forall (fun c => is_upper c = true)
                         (chars (String (letter c) result)))
    by (constructor; [apply letter_upper | exact Hr]).
  destruct (Z_le_gt_dec 26 c) as [Hbig | Hsmall].
  - assert (1 <= c / 26) by (apply Z.div_le_lower_bound; lia).
    assert (c / 26 <= c) by (apply Z.div_le_upper_bound; lia).
    apply IH; [lia | exact Hnext].
  - assert (c / 26 = 0) by (apply Z.div_small; lia).
    rewrite CodecFacts.colnum_loop_neg by lia. exact Hnext.
Qed.

Lemma colnum_upper (col : Z) :
  0 <= col ->
  Forall (fun c => is_upper c = true) (chars (colnum_to_excel_col col)).
Proof.
  intros H. apply colnum_loop_upper; [exact H | constructor].
Qed.

(** The characters of a decimal numeral: digits and the sign. *)
Definition is_numeral_char (c : ascii) : bool :=
  is_digit c || Ascii.eqb c "-".

Lemma uint_chars (d : Decimal.uint) :
  Forall (fun c => is_numeral_char c = true)
         (chars (NilEmpty.string_of_uint d)).
Proof.
  induction d; simpl; constructor; auto.
Qed.

Lemma str_of_int_chars (n : Z) :
  Forall (fun c => is_numeral_char c = true) (chars (str_of_int n)).
Proof.
  unfold str_of_int.
  assert (Hu : forall d, Forall (fun c => is_numeral_char c = true)
                                (chars (NilZero.string_of_uint d))).
  { intros d. destruct d; try apply uint_chars.
    simpl. constructor; [reflexivity | constructor]. }
  destruct (Z.to_int n) as [d | d]; simpl.
  - apply Hu.
  - constructor; [reflexivity | apply Hu].
Qed.

Lemma str_of_int_inj (m n : Z) : str_of_int m = str_of_int n -> m = n.
Proof.
  unfold str_of_int. intros E.
  apply DecimalZ.to_int_inj.
  assert (Hnn : forall z, Z.to_int z <> Decimal.Pos Decimal.Nil /\
                          Z.to_int z <> Decimal.Neg Decimal.Nil).
  { intros [| p | p]; simpl; split; try discriminate;
      intros [= Hp]; now apply DecimalPos.Unsigned.to_uint_nonnil in Hp. }
  assert (Some (Z.to_int m) = Some (Z.to_int n)) as [= ->]; [| reflexivity].
  rewrite <- (NilZero.isi (Z.to_int m)), <- (NilZero.isi (Z.to_int n));
    try apply Hnn.
  now rewrite E.
Qed.

Lemma upper_not_numeral (c : ascii) :
  is_upper c = true -> is_numeral_char c = false.
Proof.
  destruct c as [[|] [|] [|] [|] [|] [|] [|] [|]]; vm_compute; congruence.
Qed.

Lemma upper_not_underscore (c : ascii) : is_upper c = true -> c <> "_"%char.
Proof. intros H ->. vm_compute in H. discriminate. Qed.

Lemma numeral_not_underscore (c : ascii) :
  is_numeral_char c = true -> c <> "_"%char.
Proof. intros H ->. vm_compute in H. discriminate. Qed.

(** A run of capitals followed by a numeral splits in one way only. *)
Lemma split_capitals (la lb da db : list ascii) :
  Forall (fun c => is_upper c = true) la ->
  Forall (fun c => is_upper c = true) lb ->
  Forall (fun c => is_numeral_char c = true) da ->
  Forall (fun c => is_numeral_char c = true) db ->
  la ++ da = lb ++ db -> la = lb /\ da = db.
Proof.
  intros Hla. revert lb.
  induction Hla as [| a la Ha Hla IH]; intros lb Hlb Hda Hdb E.
  - destruct Hlb as [| b lb Hb Hlb]; [now split |].
    simpl in E. subst da. inversion Hda as [| ? ? Hn ?]; subst.
    rewrite (upper_not_numeral _ Hb) in Hn. discriminate.
  - destruct Hlb as [| b lb Hb Hlb].
    + simpl in E. subst db. inversion Hdb as [| ? ? Hn ?]; subst.
      rewrite (upper_not_numeral _ Ha) in Hn. discriminate.
    + simpl in E. injection E as -> E.
      destruct (IH lb Hlb Hda Hdb E) as [-> ->]. now split.
Qed.

(** Text is cut at the first occurrence of a separator in one way. *)
Lemma split_first (x : ascii) (l1 l2 r1 r2 : list ascii) :
  ~ In x l1 -> ~ In x l2 ->
  l1 ++ x :: r1 = l2 ++ x :: r2 -> l1 = l2 /\ r1 = r2.
Proof.
  revert l2. induction l1 as [| a l1 IH]; intros [| b l2] H1 H2 E; simpl in *.
  - injection E as ->. now split.
  - injection E as <- _. exfalso. apply H2. now left.
  - injection E as -> _. exfalso. apply H1. now left.
  - injection E as -> E.
    assert (H1' : ~ In x l1) by (intros Hin; apply H1; now right).
    assert (H2' : ~ In x l2) by (intros Hin; apply H2; now right).
    destruct (IH l2 H1' H2' E) as [-> ->]. now split.
Qed.

Lemma split_last (x : ascii) (l1 l2 r1 r2 : list ascii) :
  ~ In x r1 -> ~ In x r2 ->
  l1 ++ x :: r1 = l2 ++ x :: r2 -> l1 = l2 /\ r1 = r2.
Proof.
  intros H1 H2 E.
  apply (f_equal (@rev ascii)) in E.
  rewrite !rev_app_distr in E. simpl in E. rewrite <- !app_assoc in E.
  simpl in E.
  apply split_first in E; try (rewrite <- in_rev; assumption).
  destruct E as [Er El].
  apply (f_equal (@rev ascii)) in Er, El.
  rewrite !rev_involutive in Er, El. now split.
Qed.

Lemma cell_name_chars (col row : Z) :
  chars (cell_name col row) =
  chars (colnum_to_excel_col col) ++ chars (str_of_int (row + 1)).
Proof. unfold cell_name. apply chars_app. Qed.

Lemma cell_name_no_underscore (col row : Z) :
  0 <= col -> ~ In "_"%char (chars (cell_name col row)).
Proof.
  intros Hc Hin. rewrite cell_name_chars in Hin.
  apply in_app_or in Hin. destruct Hin as [Hin | Hin].
  - pose proof (colnum_upper col Hc) as Hu.
    rewrite Forall_forall in Hu.
    now apply (upper_not_underscore _ (Hu _ Hin)).
  - pose proof (str_of_int_chars (row + 1)) as Hn.
    rewrite Forall_forall in Hn.
    now apply (numeral_not_underscore _ (Hn _ Hin)).
Qed.

Lemma cell_name_inj (col1 row1 col2 row2 : Z) :
  0 <= col1 -> 0 <= col2 ->
  cell_name col1 row1 = cell_name col2 row2 ->
  col1 = col2 /\ row1 = row2.
Proof.
  intros H1 H2 E.
  apply (f_equal chars) in E. rewrite !cell_name_chars in E.
  apply split_capitals in E;
    try apply colnum_upper; try apply str_of_int_chars; try assumption.
  destruct E as [Ec Er].
  apply chars_inj in Ec, Er.
  apply CodecFacts.colnum_to_excel_col_inj in Ec; try assumption.
  apply str_of_int_inj in Er. split; lia.
Qed.

Lemma save_name_chars (sheet_name cell image_file : string) :
  chars (save_name sheet_name cell image_file) =
  (chars sheet_name ++ "_"%char :: chars cell) ++ "_"%char :: chars image_file.
Proof.
  unfold save_name. rewrite !chars_app. simpl.
  rewrite <- app_assoc. reflexivity.
Qed.

(** On one sheet the save name determines the cell. *)
Lemma save_name_same_sheet (sheet_name : string)
      (col1 row1 col2 row2 : Z) (file1 file2 : string) :
  0 <= col1 -> 0 <= col2 ->
  save_name sheet_name (cell_name col1 row1) file1 =
  save_name sheet_name (cell_name col2 row2) file2 ->
  col1 = col2 /\ row1 = row2.
Proof.
  intros H1 H2 E.
  apply (f_equal chars) in E. rewrite !save_name_chars in E.
  rewrite <- !app_assoc in E. apply app_inv_head in E.
  simpl in E. injection E as E.
  apply split_first in E; try (apply cell_name_no_underscore; assumption).
  destruct E as [E _]. apply chars_inj in E.
  now apply cell_name_inj.
Qed.

(** With one media file name the save name determines sheet and cell. *)
Lemma save_name_same_file (sheet1 sheet2 : string)
      (col1 row1 col2 row2 : Z) (image_file : string) :
  0 <= col1 -> 0 <= col2 ->
  save_name sheet1 (cell_name col1 row1) image_file =
  save_name sheet2 (cell_name col2 row2) image_file ->
  sheet1 = sheet2 /\ col1 = col2 /\ row1 = row2.
Proof.
  intros H1 H2 E.
  apply (f_equal chars) in E. rewrite !save_name_chars in E.
  apply app_inv_tail in E.
  apply split_last in E; try (apply cell_name_no_underscore; assumption).
  destruct E as [Es Ec]. apply chars_inj in Es, Ec.
  split; [exact Es | now apply cell_name_inj].
Qed.

End NameFacts.

(** ** The melt: columns against the single pass *)

Module MeltFacts.
Import Melt Pass.

Lemma df_filled_scan_from (df : DataFrame) :
  forall lc li ln n,
    let filled :=
      assign set_no
        (assign set_item
           (assign set_cls df (ffill_from lc (column r_cls df)))
           (ffill_from li (column r_item df)))
        (ffill_from ln (column r_no df)) in
    map (fun p => {| m_row := snd (fst (fst p));
                     m_grp := snd (fst p);
                     m_original_row := snd p |})
        (combine (combine filled
                          (cumsum_from n (map notna (column r_cls df))))
                 (map (fun ir => fst ir + 2) filled))
    = scan lc li ln n df.
Proof.
  induction df as [| [i r] df IH]; intros lc li ln n; [reflexivity |].
  cbn -[Z.add]. f_equal. apply IH.
Qed.

Lemma df_filled_scan (df : DataFrame) :
  df_filled df = scan Blank Blank Blank 0 df.
Proof. apply (df_filled_scan_from df Blank Blank Blank 0%nat). Qed.

(** *** [groupby] on keys that never decrease *)

Lemma fold_step_skip (rows : list MeltRow) (k : nat) (cur : list MeltRow) :
  (forall m, In m rows -> m_grp m <> k) ->
  forall gs,
    fold_left step rows ((k, cur) :: gs) = (k, cur) :: fold_left step rows gs.
Proof.
  induction rows as [| m rows IH]; intros Hk gs; [reflexivity |].
  simpl. unfold step at 2 4. simpl.
  destruct (Nat.eqb_spec (m_grp m) k) as [E | _].
  - exfalso. apply (Hk m); [now left | exact E].
  - apply IH. intros m' Hin. apply Hk. now right.
Qed.

Lemma nondecr_ge (rows : list MeltRow) :
  forall k, nondecr k rows -> forall m, In m rows -> (k <= m_grp m)%nat.
Proof.
  induction rows as [| m0 rows IH]; intros k H m Hin; [contradiction |].
  destruct H as [H0 H]. destruct Hin as [<- | Hin]; [exact H0 |].
  specialize (IH _ H _ Hin). lia.
Qed.

Lemma fold_step_blocks (rows : list MeltRow) :
  forall k cur,
    nondecr k rows -> fold_left step rows [(k, cur)] = blocks k cur rows.
Proof.
  induction rows as [| m rows IH]; intros k cur H; [reflexivity |].
  destruct H as [H0 H]. simpl. unfold step at 2. simpl.
  destruct (Nat.eqb_spec (m_grp m) k) as [E | NE].
  - apply IH. now rewrite <- E.
  - rewrite fold_step_skip.
    + f_equal. now apply IH.
    + intros m' Hin. pose proof (nondecr_ge _ _ H _ Hin). lia.
Qed.

Lemma groupby_groups_of (rows : list MeltRow) (k : nat) :
  nondecr k rows -> groupby rows = groups_of rows.
Proof.
  destruct rows as [| m rows]; intros H; [reflexivity |].
  destruct H as [_ H]. unfold groupby. simpl.
  now apply fold_step_blocks.
Qed.

Lemma scan_nondecr (df : DataFrame) :
  forall lc li ln n, nondecr n (scan lc li ln n df).
Proof.
  induction df as [| [i r] df IH]; intros lc li ln n; simpl; [exact I |].
  split; [destruct (notna (r_cls r)); lia | apply IH].
Qed.

Lemma groupby_df_filled (df : DataFrame) :
  groupby (df_filled df) = groups_of (scan Blank Blank Blank 0 df).
Proof.
  rewrite df_filled_scan. apply (groupby_groups_of _ 0%nat), scan_nondecr.
Qed.

Lemma concat_blocks (rows : list MeltRow) :
  forall k cur, List.concat (map snd (blocks k cur rows)) = cur ++ rows.
Proof.
  induction rows as [| m rows IH]; intros k cur; simpl.
  - now rewrite app_nil_r.
  - destruct (Nat.eqb (m_grp m) k); simpl; rewrite IH.
    + now rewrite <- app_assoc.
    + reflexivity.
Qed.

Lemma concat_groups_of (rows : list MeltRow) :
  List.concat (map snd (groups_of rows)) = rows.
Proof.
  destruct rows as [| m rows]; [reflexivity | apply concat_blocks].
Qed.

Lemma blocks_nonempty (rows : list MeltRow) :
  forall k cur, cur <> [] ->
    Forall (fun g => snd g <> []) (blocks k cur rows).
Proof.
  induction rows as [| m rows IH]; intros k cur H; simpl.
  - constructor; [exact H | constructor].
  - destruct (Nat.eqb (m_grp m) k).
    + apply IH. now destruct cur.
    + constructor; [exact H | apply IH; discriminate].
Qed.

Lemma scan_original_row (df : DataFrame) :
  forall lc li ln n,
    map m_original_row (scan lc li ln n df) = map (fun ir => fst ir + 2) df.
Proof.
  induction df as [| [i r] df IH]; intros lc li ln n; simpl; [reflexivity |].
  f_equal. apply IH.
Qed.

Section WithStr.
Variable str_of_num : Q -> string.

(** The row lists of the groups, put end to end, are the row numbers
    of the frame in order: each row is in one group. *)
Lemma melt_agg_original_rows (df : DataFrame) :
  List.concat (map a_original_row (melt_agg str_of_num df)) =
  map (fun ir => fst ir + 2) df.
Proof.
  unfold melt_agg. rewrite groupby_df_filled, map_map. simpl.
  rewrite <- (scan_original_row df Blank Blank Blank 0%nat).
  rewrite <- (concat_groups_of (scan Blank Blank Blank 0 df)) at 2.
  rewrite concat_map, map_map. reflexivity.
Qed.
End WithStr.

(** *** The integer conversion *)

Lemma mapM_ok_iff {A B} (f : A -> result B) (l : list A) (ys : list B) :
  mapM f l = Ok ys <-> Forall2 (fun x y => f x = Ok y) l ys.
Proof.
  revert ys. induction l as [| x l IH]; intros ys; simpl.
  - split.
    + intros [= <-]. constructor.
    + intros H. inversion H. reflexivity.
  - split.
    + destruct (f x) as [y | e] eqn:Ex; simpl; [| discriminate].
      destruct (mapM f l) as [ys' | e] eqn:El; simpl; [| discriminate].
      intros [= <-]. constructor; [exact Ex | now apply IH].
    + intros H. inversion H as [| ? y ? ys' Hx Hl]; subst.
      rewrite Hx. simpl. apply IH in Hl. rewrite Hl. reflexivity.
Qed.

Lemma mapM_raise {A B} (f : A -> result B) (l : list A) (e : exn) :
  mapM f l = Raise e -> exists x, In x l /\ f x = Raise e.
Proof.
  induction l as [| x l IH]; simpl; [discriminate |].
  destruct (f x) as [y | e'] eqn:Ex; simpl.
  - destruct (mapM f l) as [ys | e'] eqn:El; simpl; [discriminate |].
    intros [= ->]. destruct (IH eq_refl) as (x' & Hin & Hx).
    exists x'. split; [now right | exact Hx].
  - intros [= ->]. exists x. split; [now left | exact Ex].
Qed.



Lemma astype_no_int_ok (cast : IntCast) (a : Agg) (g : MergeGroup) :
  astype_no_int cast a = Ok g ->
  to_int cast (a_no a) = Ok (g_no g) /\
  g_sheet g = a_sheet a /\ g_cls g = a_cls a /\ g_item g = a_item a /\
  g_question g = a_question a /\ g_answer g = a_answer a /\
  g_original_row g = a_original_row a.
Proof.
  unfold astype_no_int, bind.
  destruct (to_int cast (a_no a)); [| discriminate].
  intros [= <-]. simpl. repeat split.
Qed.

Lemma astype_no_int_raise (cast : IntCast) (a : Agg) (e : exn) :
  astype_no_int cast a = Raise e <-> to_int cast (a_no a) = Raise e.
Proof.
  unfold astype_no_int, bind.
  destruct (to_int cast (a_no a)); split; intros H;
    try discriminate H; now injection H as ->.
Qed.



(** *** Forward fill *)

Lemma first_single (c : Cell) : first [c] = c.
Proof. now destruct c. Qed.

Lemma first_app (l l' : list Cell) :
  first (l ++ l') = if notna (first l) then first l else first l'.
Proof.
  induction l as [| c l IH]; simpl; [reflexivity |].
  destruct (notna c) eqn:E; [now rewrite E | exact IH].
Qed.

Lemma first_all_blank (l : list Cell) :
  Forall (fun c => c = Blank) l -> first l = Blank.
Proof.
  induction 1 as [| c l -> _ IH]; simpl; [reflexivity | exact IH].
Qed.

Lemma first_fill (c last : Cell) : first [c; last] = Pass.fill c last.
Proof. unfold Pass.fill. simpl. destruct (notna c); [reflexivity |].
  now destruct last. Qed.

Lemma ffill_from_length (col : list Cell) :
  forall last, List.length (ffill_from last col) = List.length col.
Proof.
  induction col as [| c col IH]; intros last; simpl; [| rewrite IH];
    reflexivity.
Qed.

(** A filled cell is the nearest value at or above it, or the value
    carried in when there is none. *)
Lemma ffill_from_nth (col : list Cell) :
  forall last i,
    (i < List.length col)%nat ->
    nth i (ffill_from last col) Blank = first (rev (firstn (S i) col) ++ [last]).
Proof.
  induction col as [| c col IH]; intros last i Hi; simpl in Hi; [lia |].
  destruct i as [| i].
  - change (Pass.fill c last = first [c; last]).
    symmetry. apply first_fill.
  - change (nth (S i) (ffill_from last (c :: col)) Blank)
      with (nth i (ffill_from (Pass.fill c last) col) Blank).
    rewrite IH by lia.
    change (firstn (S (S i)) (c :: col)) with (c :: firstn (S i) col).
    simpl rev. rewrite <- app_assoc. simpl.
    rewrite !first_app, first_fill, first_single. reflexivity.
Qed.

Lemma ffill_nth (col : list Cell) (i : nat) :
  (i < List.length col)%nat ->
  nth i (ffill col) Blank = Ref.nearest_above col i.
Proof.
  intros Hi. unfold ffill, Ref.nearest_above.
  rewrite ffill_from_nth by exact Hi.
  rewrite first_app. simpl. now destruct (first _).
Qed.

(** Filling two columns put end to end: the second starts from the
    last value of the first. *)
Lemma ffill_from_app (c1 c2 : list Cell) :
  forall last,
    ffill_from last (c1 ++ c2) =
    ffill_from last c1 ++ ffill_from (first (rev c1 ++ [last])) c2.
Proof.
  induction c1 as [| c c1 IH]; intros last; cbn [ffill_from app rev].
  - now rewrite first_single.
  - rewrite IH. fold (Pass.fill c last). do 3 f_equal.
    rewrite <- app_assoc. cbn [app].
    rewrite !first_app, first_fill, first_single. reflexivity.
Qed.

Lemma ffill_from_started (col : list Cell) (last : Cell) :
  notna (hd (Text EmptyString) col) = true ->
  ffill_from last col = ffill col.
Proof.
  destruct col as [| c col]; [reflexivity |].
  cbn [hd]. intros H. unfold ffill. cbn [ffill_from].
  rewrite H. reflexivity.
Qed.

Lemma ffill_from_concat (cols : list (list Cell)) :
  Forall (fun col => notna (hd (Text EmptyString) col) = true) cols ->
  forall last,
    ffill_from last (List.concat cols) = List.concat (map ffill cols).
Proof.
  induction 1 as [| col cols Hcol _ IH]; intros last; simpl; [reflexivity |].
  rewrite ffill_from_app, IH, (ffill_from_started col last Hcol).
  reflexivity.
Qed.

(** *** Columns of the frames *)

Lemma fill_ids_columns_from (df : DataFrame) :
  forall lc li ln,
    let filled :=
      assign set_no
        (assign set_item
           (assign set_cls df (ffill_from lc (column r_cls df)))
           (ffill_from li (column r_item df)))
        (ffill_from ln (column r_no df)) in
    column r_cls filled = ffill_from lc (column r_cls df) /\
    column r_item filled = ffill_from li (column r_item df) /\
    column r_no filled = ffill_from ln (column r_no df).
Proof.
  induction df as [| [i r] df IH]; intros lc li ln; [now repeat split |].
  cbn.
  destruct (IH (if notna (r_cls r) then r_cls r else lc)
               (if notna (r_item r) then r_item r else li)
               (if notna (r_no r) then r_no r else ln)) as (E1 & E2 & E3).
  repeat split; f_equal; assumption.
Qed.

Lemma fill_ids_columns (df : DataFrame) :
  column r_cls (fill_ids df) = ffill (column r_cls df) /\
  column r_item (fill_ids df) = ffill (column r_item df) /\
  column r_no (fill_ids df) = ffill (column r_no df).
Proof. apply (fill_ids_columns_from df Blank Blank Blank). Qed.

Lemma combine_range_snd {A} (rows : list A) :
  map snd (combine (map Z.of_nat (seq 0 (List.length rows))) rows) = rows.
Proof.
  generalize 0%nat. induction rows as [| r rows IH]; intros n; simpl;
    [| rewrite IH]; reflexivity.
Qed.

Lemma combine_range_fst {A} (rows : list A) :
  map fst (combine (map Z.of_nat (seq 0 (List.length rows))) rows) =
  map Z.of_nat (seq 0 (List.length rows)).
Proof.
  generalize 0%nat. induction rows as [| r rows IH]; intros n; simpl;
    [| rewrite IH]; reflexivity.
Qed.

Lemma df_all_column (get : Row -> Cell) (raw_get : RawRow -> Cell)
      (excel_file : list (string * list RawRow)) :
  (forall name r, get (with_sheet name r) = raw_get r) ->
  column get (df_all excel_file) = Ref.raw_column raw_get excel_file.
Proof.
  intros Hget. unfold column, df_all, concat_ignore_index, Ref.raw_column.
  rewrite <- (map_map snd get), combine_range_snd.
  rewrite concat_map, map_map. f_equal.
  apply map_ext. intros [name rows]. simpl. rewrite map_map.
  apply map_ext. intros r. apply Hget.
Qed.

Lemma df_all_index (excel_file : list (string * list RawRow)) :
  map fst (df_all excel_file) =
  map Z.of_nat (seq 0 (List.length (df_all excel_file))).
Proof.
  unfold df_all, concat_ignore_index.
  rewrite combine_range_fst, length_combine, length_map, length_seq.
  now rewrite Nat.min_id.
Qed.

(** *** Group ids *)

Lemma running_count_cons (c : Cell) (col : list Cell) (i : nat) :
  Ref.running_count (c :: col) (S i) =
  ((if notna c then 1 else 0) + Ref.running_count col i)%nat.
Proof.
  unfold Ref.running_count.
  change (firstn (S (S i)) (c :: col)) with (c :: firstn (S i) col).
  simpl filter. now destruct (notna c).
Qed.

Lemma scan_grp (df : DataFrame) :
  forall lc li ln n i m,
    nth_error (scan lc li ln n df) i = Some m ->
    m_grp m = (n + Ref.running_count (column r_cls df) i)%nat.
Proof.
  induction df as [| [i0 r] df IH]; intros lc li ln n i m H.
  - now destruct i.
  - destruct i as [| i].
    + simpl in H. injection H as <-. simpl.
      unfold Ref.running_count. simpl.
      destruct (notna (r_cls r)); simpl; lia.
    + simpl in H. apply IH in H. rewrite H.
      change (column r_cls ((i0, r) :: df))
        with (r_cls r :: column r_cls df).
      rewrite running_count_cons.
      destruct (notna (r_cls r)); lia.
Qed.

(** While the count has not moved, the filled classification is the
    value carried in. *)
Lemma scan_same_grp (df : DataFrame) :
  forall lc li ln n m,
    In m (scan lc li ln n df) -> m_grp m = n -> r_cls (m_row m) = lc.
Proof.
  induction df as [| [i0 r] df IH]; intros lc li ln n m Hin Hg;
    [contradiction |].
  simpl in Hin. destruct Hin as [<- | Hin].
  - simpl in *. unfold Pass.fill.
    destruct (notna (r_cls r)); [lia | reflexivity].
  - pose proof (nondecr_ge _ _ (scan_nondecr df _ _ _ _) _ Hin) as Hge.
    destruct (notna (r_cls r)) eqn:E; [lia |].
    rewrite (IH _ _ _ _ _ Hin Hg). unfold Pass.fill. now rewrite E.
Qed.

Lemma blocks_head (rows : list MeltRow) :
  forall k cur,
  exists tl gs,
    blocks k cur rows = (k, cur ++ tl) :: gs /\
    forall m, In m tl -> In m rows /\ m_grp m = k.
Proof.
  induction rows as [| m rows IH]; intros k cur; simpl.
  - exists [], []. rewrite app_nil_r. split; [reflexivity | contradiction].
  - destruct (Nat.eqb_spec (m_grp m) k) as [E | NE].
    + destruct (IH k (cur ++ [m])) as (tl & gs & Eb & Htl).
      exists (m :: tl), gs. rewrite Eb, <- app_assoc. split; [reflexivity |].
      intros m' [<- | Hin]; [split; [now left | exact E] |].
      destruct (Htl _ Hin). split; [now right | assumption].
    + exists [], (blocks (m_grp m) [m] rows). rewrite app_nil_r.
      split; [reflexivity | contradiction].
Qed.

Lemma running_count_step (col : list Cell) :
  forall i c,
    nth_error col (S i) = Some c ->
    Ref.running_count col (S i) =
    (Ref.running_count col i + (if notna c then 1 else 0))%nat.
Proof.
  induction col as [| c0 col IH]; intros i c H; [discriminate |].
  destruct i as [| i].
  - destruct col as [| c1 col]; [discriminate |].
    simpl in H. injection H as ->.
    unfold Ref.running_count. simpl.
    destruct (notna c0), (notna c); reflexivity.
  - simpl in H. rewrite !running_count_cons, (IH _ _ H). lia.
Qed.

Section Raising.
Variable cast : IntCast.
Variable str_of_num : Q -> string.

(** An error of the melt is the error of the conversion of the
    sequence number of some group. *)
Lemma melt_raise_cause (df : DataFrame) (e : exn) :
  melt_merged_rows cast str_of_num df = Raise e ->
  exists a, In a (melt_agg str_of_num df) /\ to_int cast (a_no a) = Raise e.
Proof.
  unfold melt_merged_rows. intros H.
  apply mapM_raise in H. destruct H as (a & Hin & Ha).
  apply astype_no_int_raise in Ha. now exists a.
Qed.



(** The emitted groups are the aggregate, row by row, with the
    sequence number converted. *)
Lemma melt_ok (df : DataFrame) (gs : list MergeGroup) :
  melt_merged_rows cast str_of_num df = Ok gs <->
  Forall2 (fun a g => astype_no_int cast a = Ok g) (melt_agg str_of_num df) gs.
Proof. apply mapM_ok_iff. Qed.
End Raising.

(** *** A block of rows inside a longer table *)

Lemma labelled_app (a b : list Row) :
  forall k,
    labelled k (a ++ b) = labelled k a ++ labelled (k + List.length a) b.
Proof.
  unfold labelled. induction a as [| r a IH]; intros k; simpl.
  - now rewrite Nat.add_0_r.
  - f_equal. rewrite IH.
    replace (k + S (List.length a))%nat with (S k + List.length a)%nat by lia.
    reflexivity.
Qed.

Lemma count_after_ge (df : DataFrame) :
  forall n, (n <= count_after n df)%nat.
Proof.
  induction df as [| [i r] df IH]; intros n; simpl; [lia |].
  specialize (IH (if notna (r_cls r) then S n else n)).
  destruct (notna (r_cls r)); lia.
Qed.

Lemma scan_app (a b : DataFrame) :
  forall lc li ln n,
  exists lc' li' ln',
    scan lc li ln n (a ++ b) =
    scan lc li ln n a ++ scan lc' li' ln' (count_after n a) b.
Proof.
  induction a as [| [i r] a IH]; intros lc li ln n; simpl.
  - now exists lc, li, ln.
  - destruct (IH (fill (r_cls r) lc) (fill (r_item r) li) (fill (r_no r) ln)
                 (if notna (r_cls r) then S n else n))
      as (lc' & li' & ln' & E).
    exists lc', li', ln'. now rewrite E.
Qed.

Lemma scan_grp_le (df : DataFrame) :
  forall lc li ln n m,
    In m (scan lc li ln n df) -> (m_grp m <= count_after n df)%nat.
Proof.
  induction df as [| [i r] df IH]; intros lc li ln n m Hin; [contradiction |].
  simpl in Hin. destruct Hin as [<- | Hin]; simpl.
  - apply count_after_ge.
  - now apply IH in Hin.
Qed.

Lemma blocks_app_new (A B : list MeltRow) (x : MeltRow) :
  (forall m, In m A -> (m_grp m < m_grp x)%nat) ->
  forall k cur,
    (k < m_grp x)%nat ->
    blocks k cur (A ++ x :: B) = blocks k cur A ++ blocks (m_grp x) [x] B.
Proof.
  induction A as [| m A IH]; intros HA k cur Hk; simpl.
  - destruct (Nat.eqb_spec (m_grp x) k); [lia | reflexivity].
  - assert (HA' : forall m', In m' A -> (m_grp m' < m_grp x)%nat)
      by (intros m' Hin; apply HA; now right).
    destruct (Nat.eqb (m_grp m) k).
    + now apply IH.
    + simpl. f_equal. apply IH; [exact HA' | apply HA; now left].
Qed.

Lemma groups_of_app_new (A B : list MeltRow) (x : MeltRow) :
  (forall m, In m A -> (m_grp m < m_grp x)%nat) ->
  groups_of (A ++ x :: B) = groups_of A ++ blocks (m_grp x) [x] B.
Proof.
  destruct A as [| m A]; intros HA; [reflexivity |].
  simpl. apply blocks_app_new.
  - intros m' Hin. apply HA. now right.
  - apply HA. now left.
Qed.

Lemma blocks_closed (k : nat) (cur B : list MeltRow) :
  match B with
  | [] => True
  | m :: _ => m_grp m <> k
  end ->
  blocks k cur B = (k, cur) :: groups_of B.
Proof.
  destruct B as [| m B]; intros H; simpl; [reflexivity |].
  destruct (Nat.eqb_spec (m_grp m) k); [contradiction | reflexivity].
Qed.

Section Block.
Variable str_of_num : Q -> string.

(** Three consecutive rows of which only the first has a
    classification, followed by the end of the table or by a row that
    has one, are one group of the aggregate. *)
Lemma three_row_block (pre post : list Row) (r1 r2 r3 : Row) :
  notna (r_cls r1) = true -> r_cls r2 = Blank -> r_cls r3 = Blank ->
  notna (hd (Text EmptyString) (map r_cls post)) = true ->
  let df := labelled 0 (pre ++ [r1; r2; r3] ++ post) in
  let r := Z.of_nat (List.length pre) + 2 in
  exists before a after,
    melt_agg str_of_num df = before ++ a :: after /\
    a_question a = join_text str_of_num
                             [r_question r1; r_question r2; r_question r3] /\
    a_answer a = join_text str_of_num
                           [r_answer r1; r_answer r2; r_answer r3] /\
    a_cls a = r_cls r1 /\ a_sheet a = r_sheet r1 /\
    a_original_row a = [r; r + 1; r + 2].
Proof.
  intros H1 H2 H3 Hpost df r. subst df.
  unfold melt_agg. rewrite groupby_df_filled.
  rewrite labelled_app. simpl Nat.add.
  destruct (scan_app (labelled 0 pre)
                     (labelled (List.length pre) ([r1; r2; r3] ++ post))
                     Blank Blank Blank 0%nat) as (lc & li & ln & ->).
  set (n := count_after 0 (labelled 0 pre)).
  change ([r1; r2; r3] ++ post) with (r1 :: [r2; r3] ++ post).
  unfold labelled at 2. cbn [List.length seq map combine scan].
  rewrite H1.
  set (x1 := {| m_row := _; m_grp := S n; m_original_row := _ |}).
  rewrite groups_of_app_new.
  2:{ intros m Hin. apply scan_grp_le in Hin. subst x1 n. simpl. lia. }
  change (m_grp x1) with (S n).
  change ([r2; r3] ++ post) with (r2 :: [r3] ++ post).
  cbn [List.length seq map combine scan blocks app].
  rewrite H2. cbn [notna]. rewrite Nat.eqb_refl.
  change ([r3] ++ post) with (r3 :: post).
  cbn [List.length seq map combine scan blocks app].
  rewrite H3. cbn [notna]. rewrite Nat.eqb_refl.
  rewrite blocks_closed.
  2:{ destruct post as [| y post]; [exact I |].
      cbn [List.length seq map combine scan]. cbn [hd map] in Hpost.
      rewrite Hpost. cbn [m_grp]. lia. }
  rewrite map_app. cbn [map snd].
  eexists. eexists. eexists. split; [reflexivity |].
  subst x1. cbn [agg_group map m_row r_question r_answer r_cls r_sheet hd
                 m_original_row a_question a_answer a_cls a_sheet
                 a_original_row].
  repeat split.
  - unfold fill. rewrite H1. cbn [first]. now rewrite H1.
  - subst r. rewrite !Nat2Z.inj_succ. repeat (f_equal; try lia).
Qed.
End Block.

(** *** Rows with a blank classification *)

(** The open group takes the rows above the first row with a
    classification, and no other. *)
Lemma blocks_leading (df : DataFrame) :
  forall lc li ln k cur,
  exists gs,
    blocks k cur (scan lc li ln k df) =
    (k, cur ++ scan lc li ln k (leading_blank df)) :: gs.
Proof.
  induction df as [| [i r] df IH]; intros lc li ln k cur.
  - exists []. simpl. now rewrite app_nil_r.
  - cbn [scan blocks leading_blank m_grp].
    destruct (notna (r_cls r)) eqn:E.
    + destruct (Nat.eqb_spec (S k) k) as [Hk | _]; [lia |].
      eexists. cbn [scan]. rewrite app_nil_r. reflexivity.
    + rewrite Nat.eqb_refl.
      destruct (IH (fill (r_cls r) lc) (fill (r_item r) li)
                   (fill (r_no r) ln) k
                   (cur ++ [{| m_row :=
                                 {| r_sheet := r_sheet r;
                                    r_cls := fill (r_cls r) lc;
                                    r_item := fill (r_item r) li;
                                    r_no := fill (r_no r) ln;
                                    r_question := r_question r;
                                    r_answer := r_answer r |};
                               m_grp := k;
                               m_original_row := i + 2 |}]))
        as (gs & ->).
      exists gs. cbn [scan]. rewrite E, <- app_assoc. reflexivity.
Qed.

Lemma scan_leading_blank_cls (df : DataFrame) :
  forall lc li ln k m,
    In m (scan lc li ln k (leading_blank df)) -> r_cls (m_row m) = lc.
Proof.
  induction df as [| [i r] df IH]; intros lc li ln k m Hin; [contradiction |].
  cbn [leading_blank] in Hin.
  destruct (notna (r_cls r)) eqn:E; [contradiction |].
  cbn [scan] in Hin. destruct Hin as [<- | Hin].
  - cbn. unfold fill. now rewrite E.
  - apply IH in Hin. rewrite Hin. unfold fill. now rewrite E.
Qed.

(** In a table labelled from [k] the leading rows are labelled [k],
    [k+1], ... *)
Lemma leading_blank_labelled (rows : list Row) :
  forall k,
    map fst (leading_blank (labelled k rows)) =
    map Z.of_nat (seq k (List.length (leading_blank (labelled k rows)))).
Proof.
  unfold labelled.
  induction rows as [| r rows IH]; intros k; [reflexivity |].
  cbn [List.length seq map combine leading_blank].
  destruct (notna (r_cls r)); [reflexivity |].
  cbn [List.length seq map fst]. f_equal. apply IH.
Qed.

(** Two neighbouring rows with one key are neighbours in one group. *)
Lemma blocks_adjacent (A B : list MeltRow) (m m' : MeltRow) :
  m_grp m' = m_grp m ->
  forall k cur,
  exists G1 k' b1 b2 G2,
    blocks k cur (A ++ m :: m' :: B) = G1 ++ (k', b1 ++ m :: m' :: b2) :: G2.
Proof.
  intros Hg. induction A as [| x A IH]; intros k cur.
  - cbn [app blocks].
    destruct (Nat.eqb (m_grp m) k) eqn:E.
    + apply Nat.eqb_eq in E. rewrite Hg, E, Nat.eqb_refl.
      destruct (blocks_head B k ((cur ++ [m]) ++ [m'])) as (t & gs & -> & _).
      exists [], k, cur, t, gs. cbn [app]. now rewrite <- !app_assoc.
    + rewrite Hg, Nat.eqb_refl.
      destruct (blocks_head B (m_grp m) [m; m']) as (t & gs & -> & _).
      exists [(k, cur)], (m_grp m), [], t, gs. reflexivity.
  - cbn [app blocks]. destruct (Nat.eqb (m_grp x) k).
    + apply IH.
    + destruct (IH (m_grp x) [x]) as (G1 & k' & b1 & b2 & G2 & ->).
      now exists ((k, cur) :: G1), k', b1, b2, G2.
Qed.

Lemma groups_of_adjacent (A B : list MeltRow) (m m' : MeltRow) :
  m_grp m' = m_grp m ->
  exists G1 k' b1 b2 G2,
    groups_of (A ++ m :: m' :: B) = G1 ++ (k', b1 ++ m :: m' :: b2) :: G2.
Proof.
  intros Hg. destruct A as [| x A].
  - cbn [app groups_of blocks]. rewrite Hg, Nat.eqb_refl.
    destruct (blocks_head B (m_grp m) [m; m']) as (t & gs & -> & _).
    now exists [], (m_grp m), [], t, gs.
  - cbn [app groups_of].
    destruct (blocks_adjacent A B m m' Hg (m_grp x) [x])
      as (G1 & k' & b1 & b2 & G2 & ->).
    now exists G1, k', b1, b2, G2.
Qed.

Section Blank.
Variable str_of_num : Q -> string.

(** A table that starts with a row without classification: the first
    group of the aggregate is made of the leading rows. *)
Lemma melt_agg_leading (i : Z) (r : Row) (df : DataFrame) :
  r_cls r = Blank ->
  exists a rest,
    melt_agg str_of_num ((i, r) :: df) = a :: rest /\
    a_cls a = Blank /\ a_sheet a = r_sheet r /\
    a_original_row a =
    map (fun ir => fst ir + 2) (leading_blank ((i, r) :: df)).
Proof.
  intros Hr. unfold melt_agg. rewrite groupby_df_filled.
  cbn [scan groups_of m_grp].
  match goal with
  | |- context [blocks ?k [?x] (scan ?c ?it ?no ?k df)] =>
      destruct (blocks_leading df c it no k [x]) as (gs & ->);
        set (x0 := x); set (c0 := c); set (it0 := it); set (no0 := no);
        set (k0 := k)
  end.
  cbn [map snd]. eexists. eexists. split; [reflexivity |].
  assert (Hc0 : c0 = Blank) by (subst c0; now rewrite Hr).
  cbn [agg_group a_cls a_sheet a_original_row app map hd].
  split; [| split].
  - apply first_all_blank. constructor.
    + subst x0. cbn. now rewrite Hr.
    + apply Forall_forall. intros c Hc. apply in_map_iff in Hc.
      destruct Hc as (m & <- & Hm).
      apply scan_leading_blank_cls in Hm. now rewrite Hm.
  - reflexivity.
  - cbn [leading_blank]. rewrite Hr. cbn [notna map fst].
    subst x0. cbn [m_original_row]. f_equal. apply scan_original_row.
Qed.

(** A row without classification is in the group of the row above
    it, next to it. *)
Lemma melt_agg_adjacent (pre post : DataFrame) (i j : Z) (r r' : Row) :
  r_cls r' = Blank ->
  exists before a after rows1 rows2,
    melt_agg str_of_num (pre ++ (i, r) :: (j, r') :: post) =
    before ++ a :: after /\
    a_original_row a = rows1 ++ (i + 2) :: (j + 2) :: rows2.
Proof.
  intros Hr. unfold melt_agg. rewrite groupby_df_filled.
  destruct (scan_app pre ((i, r) :: (j, r') :: post) Blank Blank Blank 0%nat)
    as (lc & li & ln & ->).
  cbn [scan]. rewrite Hr. cbn [notna].
  match goal with
  | |- context [groups_of (?A ++ ?m :: ?m' :: ?B)] =>
      destruct (groups_of_adjacent A B m m' eq_refl)
        as (G1 & k' & b1 & b2 & G2 & ->)
  end.
  rewrite map_app. cbn [map snd].
  eexists. eexists. eexists.
  exists (map m_original_row b1), (map m_original_row b2).
  split; [reflexivity |].
  cbn [agg_group a_original_row]. now rewrite map_app.
Qed.
End Blank.

(** The emitted groups follow a split of the aggregate. *)
Lemma Forall2_split_l {A B} (R : A -> B -> Prop) (l1 l2 : list A) (x : A)
      (l' : list B) :
  Forall2 R (l1 ++ x :: l2) l' ->
  exists l1' y l2',
    l' = l1' ++ y :: l2' /\ List.length l1' = List.length l1 /\ R x y.
Proof.
  intros H. apply Forall2_app_inv_l in H.
  destruct H as (l1' & lr & H1 & Hr & ->).
  inversion Hr as [| ? y ? l2' Hxy _]; subst.
  exists l1', y, l2'. split; [reflexivity |]. split; [| exact Hxy].
  symmetry. eapply Forall2_length. exact H1.
Qed.

End MeltFacts.

(** ** Groups partition the rows *)

Module JoinFacts.
Import Melt Assemble MeltFacts.

Lemma NoDup_app_disjoint {A} (l1 l2 : list A) (x : A) :
  NoDup (l1 ++ l2) -> In x l1 -> In x l2 -> False.
Proof.
  induction l1 as [| a l1 IH]; simpl; intros H H1 H2; [contradiction |].
  inversion H as [| ? ? Hnotin Hnd]; subst.
  destruct H1 as [-> | H1].
  - apply Hnotin, in_or_app. now right.
  - now apply IH.
Qed.

Lemma concat_NoDup_nth {A} (L : list (list A)) :
  NoDup (List.concat L) ->
  forall i j a b x,
    nth_error L i = Some a -> nth_error L j = Some b ->
    In x a -> In x b -> i = j.
Proof.
  induction L as [| l L IH]; intros H i j a b x Hi Hj Ha Hb.
  - now destruct i.
  - simpl in H.
    assert (Hin : forall k c, nth_error L k = Some c -> In x c ->
                              In x (List.concat L)).
    { intros k c Hk Hc. apply in_concat. exists c.
      split; [eapply nth_error_In; eassumption | exact Hc]. }
    destruct i as [| i], j as [| j]; simpl in Hi, Hj.
    + reflexivity.
    + injection Hi as ->. exfalso.
      eapply NoDup_app_disjoint; eauto.
    + injection Hj as ->. exfalso.
      eapply NoDup_app_disjoint; eauto.
    + f_equal. apply NoDup_app_remove_l in H. eapply IH; eauto.
Qed.

Lemma concat_ignore_index_index (df_list : list (list Row)) :
  map fst (concat_ignore_index df_list) =
  map Z.of_nat (seq 0 (List.length (List.concat df_list))).
Proof. unfold concat_ignore_index. apply combine_range_fst. Qed.

Lemma frame_rows_NoDup (df_list : list (list Row)) :
  NoDup (map (fun ir => fst ir + 2) (concat_ignore_index df_list)).
Proof.
  rewrite <- (map_map fst (fun i => i + 2)), concat_ignore_index_index, map_map.
  apply Finite.Injective_map_NoDup; [| apply seq_NoDup].
  intros a b E. lia.
Qed.

Lemma df_all_rows_NoDup (excel_file : list (string * list RawRow)) :
  NoDup (map (fun ir => fst ir + 2) (df_all excel_file)).
Proof. apply frame_rows_NoDup. Qed.

(** In a list of lists without repetition, an element of one list is in
    none of the others. *)
Lemma concat_NoDup_others {A} (L1 L2 : list (list A)) (l : list A) :
  NoDup (List.concat (L1 ++ l :: L2)) ->
  forall l' x, In l' (L1 ++ L2) -> In x l -> ~ In x l'.
Proof.
  rewrite concat_app. simpl. intros H l' x Hl' Hx Hx'.
  apply in_app_or in Hl'. destruct Hl' as [Hl' | Hl'].
  - apply (NoDup_app_disjoint _ _ x H).
    + apply in_concat. now exists l'.
    + apply in_or_app. now left.
  - apply NoDup_app_remove_l in H.
    apply (NoDup_app_disjoint _ _ x H Hx).
    apply in_concat. now exists l'.
Qed.

Lemma Forall2_original_rows (cast : IntCast) (aggs : list Agg)
      (gs : list MergeGroup) :
  Forall2 (fun a g => astype_no_int cast a = Ok g) aggs gs ->
  map g_original_row gs = map a_original_row aggs.
Proof.
  induction 1 as [| a g aggs gs Hag _ IH]; simpl; [reflexivity |].
  apply astype_no_int_ok in Hag. f_equal; [apply Hag | exact IH].
Qed.

Section WithStr.
Variable cast : IntCast.
Variable str_of_num : Q -> string.

(** No row number is in two of the emitted groups. *)
Lemma groups_disjoint (excel_file : list (string * list RawRow))
      (gs : list MergeGroup) :
  melt_merged_rows cast str_of_num (df_all excel_file) = Ok gs ->
  forall i j gi gj r,
    nth_error gs i = Some gi -> nth_error gs j = Some gj ->
    In r (g_original_row gi) -> In r (g_original_row gj) -> i = j.
Proof.
  intros Hm i j gi gj r Hi Hj Hri Hrj.
  apply mapM_ok_iff, Forall2_original_rows in Hm.
  apply (concat_NoDup_nth (map g_original_row gs)) with
    (a := g_original_row gi) (b := g_original_row gj) (x := r);
    try assumption; try (now apply map_nth_error).
  rewrite Hm, melt_agg_original_rows. apply df_all_rows_NoDup.
Qed.
End WithStr.

(** *** Row numbers inside a group *)

Lemma StronglySorted_app_parts {A} (R : A -> A -> Prop) (l1 l2 : list A) :
  StronglySorted R (l1 ++ l2) -> StronglySorted R l1 /\ StronglySorted R l2.
Proof.
  induction l1 as [| a l1 IH]; simpl; intros H.
  - split; [constructor | exact H].
  - apply StronglySorted_inv in H. destruct H as [H Ha].
    destruct (IH H) as [H1 H2]. split; [| exact H2].
    constructor; [exact H1 |].
    apply Forall_forall. intros x Hx.
    rewrite Forall_forall in Ha. apply Ha, in_or_app. now left.
Qed.

Lemma StronglySorted_concat {A} (R : A -> A -> Prop) (L : list (list A)) :
  StronglySorted R (List.concat L) ->
  forall l, In l L -> StronglySorted R l.
Proof.
  induction L as [| l0 L IH]; simpl; intros H l Hl; [contradiction |].
  apply StronglySorted_app_parts in H. destruct H as [H0 H].
  destruct Hl as [<- | Hl]; [exact H0 | now apply IH].
Qed.

Lemma range_rows_sorted (n k : nat) :
  StronglySorted Z.lt (map (fun i => Z.of_nat i + 2) (seq k n)).
Proof.
  revert k. induction n as [| n IH]; intros k; simpl; constructor.
  - apply IH.
  - apply Forall_forall. intros x Hx.
    apply in_map_iff in Hx. destruct Hx as (i & <- & Hi).
    apply in_seq in Hi. lia.
Qed.

Section Ascending.
Variable str_of_num : Q -> string.

(** Every group of the aggregate keeps the row numbers of its rows in
    ascending order. *)
Lemma group_rows_ascending (df_list : list (list Row)) (a : Agg) :
  In a (melt_agg str_of_num (concat_ignore_index df_list)) ->
  StronglySorted Z.lt (a_original_row a).
Proof.
  intros Hin.
  apply (StronglySorted_concat Z.lt
           (map a_original_row
                (melt_agg str_of_num (concat_ignore_index df_list)))).
  - rewrite melt_agg_original_rows.
    rewrite <- (map_map fst (fun i => i + 2)), concat_ignore_index_index.
    rewrite map_map. apply range_rows_sorted.
  - now apply in_map.
Qed.
End Ascending.

(** A path is in the image list of a group only through an entry of
    [image_map] whose key names the group's sheet and one of its rows. *)
Lemma images_for_in (image_map : list ((string * Z) * list string))
      (sheet path : string) (rows : list Z) :
  In path (images_for image_map sheet rows) <->
  exists key paths,
    In (key, paths) image_map /\ In path paths /\
    fst key = sheet /\ In (snd key) rows.
Proof.
  unfold images_for. rewrite in_flat_map. split.
  - intros ([[img_sheet img_row] paths] & Hin & Hp). simpl in Hp.
    destruct (String.eqb_spec img_sheet sheet) as [-> |]; simpl in Hp;
      [| contradiction].
    destruct (existsb (Z.eqb img_row) rows) eqn:Ex; [| contradiction].
    apply existsb_exists in Ex. destruct Ex as (r & Hr & Er).
    apply Z.eqb_eq in Er. subst r.
    exists (sheet, img_row), paths. now repeat split.
  - intros ([img_sheet img_row] & paths & Hin & Hp & Hs & Hr). simpl in *.
    exists ((img_sheet, img_row), paths). split; [exact Hin |]. simpl.
    subst sheet. rewrite String.eqb_refl. simpl.
    replace (existsb (Z.eqb img_row) rows) with true; [exact Hp |].
    symmetry. apply existsb_exists. exists img_row.
    split; [exact Hr | apply Z.eqb_refl].
Qed.

End JoinFacts.

(** ** The row melter: group ids and the three-row block *)

Import Melt Assemble.

(** C3: every row gets as group id the running count, up to and
    including that row, of the rows whose classification cell was not
    blank before the fill. Three consecutive rows of which only the
    first carries a classification, with question text on rows 1 and 2
    only, give exactly one merge group, whose question is the two texts
    joined by a newline and whose original rows are the three
    consecutive row numbers: as a whole table carrying an integer
    sequence number the result is that one group; inside a longer table
    (the block ending at the end of the table or at the next row with a
    classification) the aggregate, and every result of the melt, has
    that group, and no other group has any of the three rows. *)
Theorem melt_group_ids (cast : IntCast) (str_of_num : Q -> string) :
  (forall df i m,
      nth_error (df_filled df) i = Some m ->
      m_grp m = Ref.running_count (column r_cls df) i) /\
  (forall sheet_name r1 r2 r3 t1 t2 n,
      notna (raw_cls r1) = true ->
      raw_cls r2 = Blank -> raw_cls r3 = Blank ->
      raw_question r1 = Text t1 -> raw_question r2 = Text t2 ->
      raw_question r3 = Blank ->
      to_int cast (first [raw_no r1; raw_no r2; raw_no r3]) = Ok n ->
      exists g,
        melt_merged_rows cast str_of_num (df_all [(sheet_name, [r1; r2; r3])])
        = Ok [g] /\
        g_question g = (t1 ++ String "010" t2)%string /\
        g_original_row g = [2; 3; 4] /\
        g_sheet g = sheet_name /\ g_cls g = raw_cls r1 /\ g_no g = n) /\
  (forall df_list pre post r1 r2 r3 t1 t2,
      List.concat df_list = pre ++ [r1; r2; r3] ++ post ->
      notna (r_cls r1) = true -> r_cls r2 = Blank -> r_cls r3 = Blank ->
      notna (hd (Text EmptyString) (map r_cls post)) = true ->
      r_question r1 = Text t1 -> r_question r2 = Text t2 ->
      r_question r3 = Blank ->
      let df := concat_ignore_index df_list in
      let r := Z.of_nat (List.length pre) + 2 in
      (exists before a after,
          melt_agg str_of_num df = before ++ a :: after /\
          a_question a = (t1 ++ String "010" t2)%string /\
          a_original_row a = [r; r + 1; r + 2] /\
          forall a' x, In a' (before ++ after) ->
                       In x [r; r + 1; r + 2] ->
                       ~ In x (a_original_row a')) /\
      (forall gs,
          melt_merged_rows cast str_of_num df = Ok gs ->
          exists before g after,
            gs = before ++ g :: after /\
            g_question g = (t1 ++ String "010" t2)%string /\
            g_original_row g = [r; r + 1; r + 2])).
Proof.
  split; [| split].
  - intros df i m H. rewrite MeltFacts.df_filled_scan in H.
    now apply MeltFacts.scan_grp in H.
  - intros sheet_name [c1 i1 n1 q1 a1] [c2 i2 n2 q2 a2] [c3 i3 n3 q3 a3]
           t1 t2 n Hc1 Hc2 Hc3 Hq1 Hq2 Hq3 Hn.
    simpl in Hc1, Hc2, Hc3, Hq1, Hq2, Hq3. subst c2 c3 q1 q2 q3.
    cbn [raw_no] in Hn.
    unfold melt_merged_rows, melt_agg.
    rewrite MeltFacts.groupby_df_filled.
    unfold df_all, concat_ignore_index.
    destruct c1; try discriminate;
      destruct n1, n2, n3; try discriminate;
      cbn -[to_int] in Hn |- *; unfold astype_no_int; cbn -[to_int];
      rewrite Hn; cbn; eexists; repeat split.
  - intros df_list pre post r1 r2 r3 t1 t2 Hrows H1 H2 H3 Hpost Hq1 Hq2 Hq3
           df r.
    assert (Hdf : df = Pass.labelled 0 (pre ++ [r1; r2; r3] ++ post))
      by (subst df; unfold concat_ignore_index; now rewrite Hrows).
    destruct (MeltFacts.three_row_block str_of_num pre post r1 r2 r3
                                        H1 H2 H3 Hpost)
      as (before & a & after & Hagg & Hq & _ & _ & _ & Hr).
    cbv zeta in Hagg, Hr. rewrite <- Hdf in Hagg. fold r in Hr.
    assert (Hqa : a_question a = (t1 ++ String "010" t2)%string)
      by (rewrite Hq, Hq1, Hq2, Hq3; reflexivity).
    split.
    + exists before, a, after. split; [exact Hagg |].
      split; [exact Hqa |]. split; [exact Hr |].
      intros a' x Ha' Hx.
      apply (JoinFacts.concat_NoDup_others
               (map a_original_row before) (map a_original_row after)
               (a_original_row a)).
      * rewrite <- (map_cons a_original_row), <- map_app, <- Hagg.
        rewrite MeltFacts.melt_agg_original_rows.
        subst df. apply JoinFacts.frame_rows_NoDup.
      * rewrite <- map_app. now apply in_map.
      * now rewrite Hr.
    + intros gs Hgs. apply MeltFacts.mapM_ok_iff in Hgs.
      rewrite Hagg in Hgs.
      apply Forall2_app_inv_l in Hgs.
      destruct Hgs as (gb & gr & Hb & Hrest & ->).
      inversion Hrest as [| ? g ? ga Hag Ha]; subst.
      apply MeltFacts.astype_no_int_ok in Hag.
      destruct Hag as (_ & _ & _ & _ & Hgq & _ & Hgr).
      exists gb, g, ga. split; [reflexivity |].
      now rewrite Hgq, Hgr.
Qed.

Lemma melt_group_ids_witness :
  let r1 := {| raw_cls := Text "c"; raw_item := Text "i"; raw_no := Num (7 # 1);
               raw_question := Text "q1"; raw_answer := Text "a1" |} in
  let r2 := {| raw_cls := Blank; raw_item := Blank; raw_no := Blank;
               raw_question := Text "q2"; raw_answer := Blank |} in
  let r3 := {| raw_cls := Blank; raw_item := Blank; raw_no := Blank;
               raw_question := Blank; raw_answer := Text "a3" |} in
  let df := df_all [("S", [r1; r2; r3])] in
  let rows := map (with_sheet "S") [r1; r1; r2; r3; r1] in
  (exists m, nth_error (df_filled df) 2 = Some m /\
             m_grp m = Ref.running_count (column r_cls df) 2) /\
  (exists g,
      melt_merged_rows Sample.cast (fun _ => EmptyString) df = Ok [g] /\
      g_question g = (String "q" (String "1" (String "010" "q2"))) /\
      g_original_row g = [2; 3; 4] /\
      g_sheet g = "S" /\ g_cls g = Text "c" /\ g_no g = 7) /\
  (exists before a after,
      melt_agg (fun _ => EmptyString) (concat_ignore_index [rows])
      = before ++ a :: after /\
      a_question a = (String "q" (String "1" (String "010" "q2"))) /\
      a_original_row a = [3; 4; 5]).
Proof.
  intros r1 r2 r3 df rows. split; [| split].
  - eexists. split; [reflexivity |].
    apply (proj1 (melt_group_ids Sample.cast (fun _ => EmptyString)) df 2%nat).
    reflexivity.
  - apply (proj1 (proj2 (melt_group_ids Sample.cast (fun _ => EmptyString)))
                 "S" r1 r2 r3 "q1" "q2" 7); reflexivity.
  - destruct (proj2 (proj2 (melt_group_ids Sample.cast (fun _ => EmptyString)))
                    [rows] [with_sheet "S" r1] [with_sheet "S" r1]
                    (with_sheet "S" r1) (with_sheet "S" r2)
                    (with_sheet "S" r3) "q1" "q2")
      as [(before & a & after & Hagg & Hq & Hr & _) _]; try reflexivity.
    exists before, a, after. split; [exact Hagg |].
    split; [exact Hq | exact Hr].
Defined.

(** ** Row numbers and sheets *)

(** C1 (the code departs from it): with two sheets of one row each, the
    row of the second sheet is numbered 3, its position in the
    concatenated table plus 2, where numbering per sheet gives 2; the
    group of that row keeps [3] as its original rows. *)
Theorem original_row_runs_across_sheets :
  let row := {| raw_cls := Text "c"; raw_item := Text "i"; raw_no := Num (1 # 1);
                raw_question := Text "q"; raw_answer := Text "a" |} in
  let excel_file := [("S1", [row]); ("S2", [row])] in
  map m_original_row (df_filled (df_all excel_file)) = [2; 3] /\
  Ref.sheet_row_numbers excel_file = [2; 2] /\
  exists g1 g2,
    melt_merged_rows Sample.cast (fun _ => EmptyString) (df_all excel_file) = Ok [g1; g2] /\
    g_sheet g1 = "S1" /\ g_original_row g1 = [2] /\
    g_sheet g2 = "S2" /\ g_original_row g2 = [3].
Proof.
  cbv zeta. split; [reflexivity |]. split; [reflexivity |].
  do 2 eexists. split; [reflexivity |]. repeat split.
Qed.

(** ** Forward fill across the concatenated table *)

(** C2 as stated fails: with a first sheet whose row has classification
    "A" and a second sheet whose only row has a blank classification,
    the fill gives the second sheet's row the value "A" of the first
    sheet, where a fill inside each sheet leaves it blank. *)
Lemma ffill_crosses_sheet_boundary :
  let top := {| raw_cls := Text "A"; raw_item := Text "i"; raw_no := Num (1 # 1);
                raw_question := Text "q"; raw_answer := Text "a" |} in
  let below := {| raw_cls := Blank; raw_item := Blank; raw_no := Blank;
                  raw_question := Text "q"; raw_answer := Text "a" |} in
  let excel_file := [("S1", [top]); ("S2", [below])] in
  column r_cls (fill_ids (df_all excel_file)) = [Text "A"; Text "A"] /\
  Ref.ffill_per_sheet raw_cls excel_file = [Text "A"; Blank] /\
  column r_cls (fill_ids (df_all excel_file)) <>
  Ref.ffill_per_sheet raw_cls excel_file.
Proof.
  cbv zeta. split; [reflexivity |]. split; [reflexivity |]. discriminate.
Qed.

(** C2, amended: in the forward-fill step each of the three identifying
    columns of the concatenated table is filled as one column, so a
    blank cell receives the nearest non-blank value above it in the
    concatenated table, whichever sheet that value is on; the value is
    from the same sheet, and the fill is the fill of each sheet on its
    own, whenever every sheet starts with a non-blank cell in that
    column. *)
Theorem ffill_concatenated_table (excel_file : list (string * list RawRow)) :
  let df := df_all excel_file in
  (column r_cls (fill_ids df) = ffill (Ref.raw_column raw_cls excel_file) /\
   column r_item (fill_ids df) = ffill (Ref.raw_column raw_item excel_file) /\
   column r_no (fill_ids df) = ffill (Ref.raw_column raw_no excel_file)) /\
  (forall get i,
      (i < List.length (Ref.raw_column get excel_file))%nat ->
      nth i (ffill (Ref.raw_column get excel_file)) Blank =
      Ref.nearest_above (Ref.raw_column get excel_file) i) /\
  (forall get,
      (forall sh, In sh excel_file ->
                  notna (hd (Text EmptyString) (map get (snd sh))) = true) ->
      ffill (Ref.raw_column get excel_file) = Ref.ffill_per_sheet get excel_file).
Proof.
  cbv zeta. split; [| split].
  - destruct (MeltFacts.fill_ids_columns (df_all excel_file)) as (E1 & E2 & E3).
    rewrite E1, E2, E3.
    rewrite (MeltFacts.df_all_column r_cls raw_cls),
            (MeltFacts.df_all_column r_item raw_item),
            (MeltFacts.df_all_column r_no raw_no); try reflexivity.
    now repeat split.
  - intros get i Hi. now apply MeltFacts.ffill_nth.
  - intros get H. unfold ffill at 1, Ref.raw_column, Ref.ffill_per_sheet.
    rewrite MeltFacts.ffill_from_concat, map_map; [reflexivity |].
    apply Forall_forall. intros col Hin.
    apply in_map_iff in Hin. destruct Hin as (sh & <- & Hin). now apply H.
Qed.

Lemma ffill_concatenated_table_witness :
  let top := {| raw_cls := Text "A"; raw_item := Text "i"; raw_no := Num (1 # 1);
                raw_question := Text "q"; raw_answer := Text "a" |} in
  let below := {| raw_cls := Blank; raw_item := Blank; raw_no := Blank;
                  raw_question := Text "q"; raw_answer := Text "a" |} in
  let excel_file := [("S1", [top; below]); ("S2", [top])] in
  nth 1 (ffill (Ref.raw_column raw_cls excel_file)) Blank =
  Ref.nearest_above (Ref.raw_column raw_cls excel_file) 1 /\
  ffill (Ref.raw_column raw_cls excel_file) =
  Ref.ffill_per_sheet raw_cls excel_file.
Proof.
  cbv zeta. split.
  - apply (proj1 (proj2 (ffill_concatenated_table _)) raw_cls 1%nat).
    simpl. lia.
  - apply (proj2 (proj2 (ffill_concatenated_table _)) raw_cls).
    intros sh [<- | [<- | []]]; reflexivity.
Defined.

(** ** The integer conversion of the sequence number *)




(** ** Rows with a blank classification *)

(** C6 as stated fails: a table whose first row has a blank
    classification cell is melted without error, and that row is
    emitted as a group whose classification is blank. *)
Lemma blank_first_row_makes_group :
  let row := {| raw_cls := Blank; raw_item := Text "i"; raw_no := Num (7 # 1);
                raw_question := Text "q"; raw_answer := Text "a" |} in
  exists g,
    melt_merged_rows Sample.cast (fun _ => EmptyString)
                     (df_all [("S1", [row])]) = Ok [g] /\
    g_cls g = Blank /\ g_no g = 7 /\ g_original_row g = [2].
Proof.
  cbv zeta. eexists. split; [reflexivity |]. repeat split.
Qed.

(** C6, amended: no error is raised for a blank classification cell.
    When the first row of the table has a blank classification cell,
    the rows above the first row with a classification, rows 2, 3, ...,
    are the first group of the aggregate, of the first row's sheet and
    with a blank classification, and whenever the melt returns they are
    its first group. A later row with a blank classification cell, the
    first row of a later sheet included, has the group id of the row
    above it and is next to that row in one group of the aggregate and
    of every result of the melt. [melt_merged_rows] raises only when
    the conversion of the sequence number of some group raises. *)
Theorem blank_classification_grouping (cast : IntCast)
        (str_of_num : Q -> string) :
  (forall sheet_name r rows others,
      raw_cls r = Blank ->
      let df := df_all ((sheet_name, r :: rows) :: others) in
      let top := Pass.leading_blank df in
      exists a rest,
        melt_agg str_of_num df = a :: rest /\
        a_cls a = Blank /\ a_sheet a = sheet_name /\
        a_original_row a =
        map (fun i => Z.of_nat i + 2) (seq 0 (List.length top)) /\
        hd_error (a_original_row a) = Some 2 /\
        forall gs,
          melt_merged_rows cast str_of_num df = Ok gs ->
          exists g rest',
            gs = g :: rest' /\ g_cls g = Blank /\ g_sheet g = sheet_name /\
            g_original_row g = a_original_row a) /\
  (forall df i m m',
      nth_error (df_filled df) i = Some m ->
      nth_error (df_filled df) (S i) = Some m' ->
      nth_error (column r_cls df) (S i) = Some Blank ->
      m_grp m' = m_grp m) /\
  (forall pre post i r j r',
      r_cls r' = Blank ->
      let df := pre ++ (i, r) :: (j, r') :: post in
      exists before a after rows1 rows2,
        melt_agg str_of_num df = before ++ a :: after /\
        a_original_row a = rows1 ++ (i + 2) :: (j + 2) :: rows2 /\
        forall gs,
          melt_merged_rows cast str_of_num df = Ok gs ->
          exists gb g ga,
            gs = gb ++ g :: ga /\ List.length gb = List.length before /\
            g_original_row g = rows1 ++ (i + 2) :: (j + 2) :: rows2) /\
  (forall df e,
      melt_merged_rows cast str_of_num df = Raise e ->
      exists a, In a (melt_agg str_of_num df) /\
                to_int cast (a_no a) = Raise e).
Proof.
  split; [| split; [| split]].
  - intros sheet_name r rows others Hr df top.
    assert (Hdf : df = (0, with_sheet sheet_name r)
                       :: Pass.labelled 1 (map (with_sheet sheet_name) rows
                                           ++ List.concat
                                                (map (fun sh =>
                                                        map (with_sheet (fst sh))
                                                            (snd sh))
                                                     others)))
      by reflexivity.
    destruct (MeltFacts.melt_agg_leading
                str_of_num 0 (with_sheet sheet_name r)
                (Pass.labelled 1 (map (with_sheet sheet_name) rows
                                  ++ List.concat
                                       (map (fun sh =>
                                               map (with_sheet (fst sh))
                                                   (snd sh))
                                            others))) Hr)
      as (a & rest & Hagg & Hcls & Hsheet & Hrows).
    rewrite <- Hdf in Hagg, Hrows. fold top in Hrows.
    assert (Hnum : a_original_row a =
                   map (fun i => Z.of_nat i + 2) (seq 0 (List.length top))).
    { rewrite Hrows, <- (map_map fst (fun i => i + 2)). subst top.
      change df
        with (Pass.labelled
                0 (List.concat
                     (map (fun sh => map (with_sheet (fst sh)) (snd sh))
                          ((sheet_name, r :: rows) :: others)))).
      rewrite MeltFacts.leading_blank_labelled. now rewrite map_map. }
    exists a, rest. split; [exact Hagg |]. split; [exact Hcls |].
    split; [exact Hsheet |]. split; [exact Hnum |]. split.
    + rewrite Hrows. subst top. rewrite Hdf. cbn [Pass.leading_blank].
      cbn [with_sheet r_cls]. rewrite Hr. reflexivity.
    + intros gs Hgs. apply MeltFacts.melt_ok in Hgs. rewrite Hagg in Hgs.
      inversion Hgs as [| ? g ? rest' Hag _]; subst.
      apply MeltFacts.astype_no_int_ok in Hag.
      destruct Hag as (_ & Hs & Hc & _ & _ & _ & Hro).
      exists g, rest'. split; [reflexivity |].
      rewrite Hc, Hs, Hro. now repeat split.
  - intros df i m m' Hm Hm' Hc.
    rewrite MeltFacts.df_filled_scan in Hm, Hm'.
    apply MeltFacts.scan_grp in Hm, Hm'.
    rewrite Hm, Hm', (MeltFacts.running_count_step _ _ _ Hc). simpl. lia.
  - intros pre post i r j r' Hr df.
    destruct (MeltFacts.melt_agg_adjacent str_of_num pre post i j r r' Hr)
      as (before & a & after & rows1 & rows2 & Hagg & Hrows).
    exists before, a, after, rows1, rows2.
    split; [exact Hagg |]. split; [exact Hrows |].
    intros gs Hgs. apply MeltFacts.melt_ok in Hgs. subst df.
    rewrite Hagg in Hgs. apply MeltFacts.Forall2_split_l in Hgs.
    destruct Hgs as (gb & g & ga & -> & Hlen & Hag).
    apply MeltFacts.astype_no_int_ok in Hag.
    destruct Hag as (_ & _ & _ & _ & _ & _ & Hro).
    exists gb, g, ga. split; [reflexivity |]. split; [exact Hlen |].
    now rewrite Hro.
  - intros df e H. now apply MeltFacts.melt_raise_cause in H.
Qed.

Lemma blank_classification_grouping_witness :
  let blank := {| raw_cls := Blank; raw_item := Text "i"; raw_no := Num (7 # 1);
                  raw_question := Text "q"; raw_answer := Text "a" |} in
  let named := {| raw_cls := Text "c"; raw_item := Text "i";
                  raw_no := Num (8 # 1);
                  raw_question := Text "q"; raw_answer := Text "a" |} in
  let str_of_num := fun _ : Q => EmptyString in
  (exists g rest,
      melt_merged_rows Sample.cast str_of_num
                       (df_all [("S1", [blank; blank; named])]) = Ok (g :: rest) /\
      g_cls g = Blank /\ g_sheet g = "S1" /\ g_original_row g = [2; 3]) /\
  (exists m m',
      let df := df_all [("S1", [named]); ("S2", [blank])] in
      nth_error (df_filled df) 0 = Some m /\
      nth_error (df_filled df) 1 = Some m' /\
      r_sheet (m_row m) = "S1" /\ r_sheet (m_row m') = "S2" /\
      m_grp m' = m_grp m) /\
  (exists gb g ga rows1 rows2,
      melt_merged_rows Sample.cast str_of_num
                       (df_all [("S1", [named]); ("S2", [blank])])
      = Ok (gb ++ g :: ga) /\
      g_original_row g = rows1 ++ 2 :: 3 :: rows2).
Proof.
  intros blank named str_of_num. split; [| split].
  - destruct (proj1 (blank_classification_grouping Sample.cast str_of_num)
                    "S1" blank [blank; named] [] eq_refl)
      as (a & rest & _ & _ & _ & Hrows & _ & Hgs).
    destruct (Hgs _ eq_refl) as (g & rest' & E & Hc & Hs & Hr).
    exists g, rest'. rewrite <- E. split; [reflexivity |].
    split; [exact Hc |]. split; [exact Hs |]. now rewrite Hr, Hrows.
  - do 2 eexists. cbv zeta. split; [reflexivity |]. split; [reflexivity |].
    split; [reflexivity |]. split; [reflexivity |].
    apply (proj1 (proj2 (blank_classification_grouping Sample.cast str_of_num))
                 (df_all [("S1", [named]); ("S2", [blank])]) 0%nat);
      reflexivity.
  - destruct (proj1 (proj2 (proj2 (blank_classification_grouping
                                     Sample.cast str_of_num)))
                    [] [] 0 (with_sheet "S1" named) 1 (with_sheet "S2" blank)
                    eq_refl)
      as (before & a & after & rows1 & rows2 & _ & _ & Hgs).
    destruct (melt_merged_rows Sample.cast str_of_num
                               (df_all [("S1", [named]); ("S2", [blank])]))
      as [gs | e] eqn:Em; [| vm_compute in Em; discriminate Em].
    destruct (Hgs gs Em) as (gb & g & ga & E & _ & Hr).
    exists gb, g, ga, rows1, rows2. split; [now rewrite E | exact Hr].
Defined.

(** ** Joining images to records *)

(** C10 as stated fails: two sheets named "A" and "A_B2", an image at
    B2 of the first from media file "C3_x.png" and an image at C3 of
    the second from media file "x.png" are saved under one path, and
    that path is in the image list of both records. *)
Lemma same_path_in_two_records :
  let rel := fun id type target =>
    {| Images.rel_Id := id; Images.rel_Type := type;
       Images.rel_Target := target |} in
  let pkg :=
    {| Images.namelist :=
         ["xl/workbook.xml"; "xl/_rels/workbook.xml.rels";
          "xl/worksheets/_rels/sheet1.xml.rels";
          "xl/worksheets/_rels/sheet2.xml.rels";
          "xl/drawings/drawing1.xml"; "xl/drawings/drawing2.xml";
          "xl/drawings/_rels/drawing1.xml.rels";
          "xl/drawings/_rels/drawing2.xml.rels";
          "xl/media/C3_x.png"; "xl/media/x.png"];
       Images.workbook_xml :=
         Some [ {| Images.sheet_rid := "rId1"; Images.sheet_name_attr := "A" |};
                {| Images.sheet_rid := "rId2";
                   Images.sheet_name_attr := "A_B2" |} ];
       Images.workbook_xml_rels :=
         Some [ rel "rId1" "http://r/worksheet" "worksheets/sheet1.xml";
                rel "rId2" "http://r/worksheet" "worksheets/sheet2.xml" ];
       Images.rels_of := fun f =>
         if String.eqb f "xl/worksheets/_rels/sheet1.xml.rels"
         then [rel "rId1" "http://r/drawing" "../drawings/drawing1.xml"]
         else if String.eqb f "xl/worksheets/_rels/sheet2.xml.rels"
         then [rel "rId1" "http://r/drawing" "../drawings/drawing2.xml"]
         else if String.eqb f "xl/drawings/_rels/drawing1.xml.rels"
         then [rel "rId1" "http://r/image" "../media/C3_x.png"]
         else if String.eqb f "xl/drawings/_rels/drawing2.xml.rels"
         then [rel "rId1" "http://r/image" "../media/x.png"]
         else [];
       Images.anchors_of := fun f =>
         if String.eqb f "xl/drawings/drawing1.xml"
         then [ {| Images.from_col := 1; Images.from_row := 1;
                   Images.blip := Some (Some "rId1") |} ]
         else if String.eqb f "xl/drawings/drawing2.xml"
         then [ {| Images.from_col := 2; Images.from_row := 2;
                   Images.blip := Some (Some "rId1") |} ]
         else [] |} in
  let row := fun no =>
    {| raw_cls := Text "c"; raw_item := Text "i"; raw_no := Num (no # 1);
       raw_question := Text "q"; raw_answer := Text "a" |} in
  let excel_file := [("A", [row 1]); ("A_B2", [row 2])] in
  exists f1 rec1 f2 rec2,
    run Sample.cast (fun _ => EmptyString) "book" pkg excel_file
    = Ok [(f1, rec1); (f2, rec2)] /\
    image_urls rec1 = ["json_output/image/A_B2_C3_x.png"] /\
    image_urls rec2 = ["json_output/image/A_B2_C3_x.png"].
Proof.
  cbv zeta. do 4 eexists. split; [vm_compute; reflexivity |].
  split; reflexivity.
Qed.

(** C10, amended: in every run the original-row lists of distinct merge
    groups are pairwise disjoint, so an image registered under a given
    (sheet, row) key is joined into at most one record; a saved image
    path is in the image list of at most one record whenever no path is
    registered under two different keys. *)
Theorem images_joined_once (cast : IntCast) (str_of_num : Q -> string)
        (excel_file : list (string * list RawRow)) (gs : list MergeGroup)
        (image_map : list ((string * Z) * list string)) :
  melt_merged_rows cast str_of_num (df_all excel_file) = Ok gs ->
  (forall i j gi gj r,
      nth_error gs i = Some gi -> nth_error gs j = Some gj ->
      In r (g_original_row gi) -> In r (g_original_row gj) -> i = j) /\
  (forall i j gi gj key,
      nth_error gs i = Some gi -> nth_error gs j = Some gj ->
      joins key gi -> joins key gj -> i = j) /\
  ((forall k1 k2 p1 p2 path,
       In (k1, p1) image_map -> In (k2, p2) image_map ->
       In path p1 -> In path p2 -> k1 = k2) ->
   forall i j gi gj path,
     nth_error gs i = Some gi -> nth_error gs j = Some gj ->
     In path (image_urls (record_of image_map gi)) ->
     In path (image_urls (record_of image_map gj)) -> i = j).
Proof.
  intros Hm.
  pose proof (JoinFacts.groups_disjoint cast str_of_num excel_file gs Hm)
    as Hd.
  split; [exact Hd |]. split.
  - intros i j gi gj key Hi Hj [_ Hri] [_ Hrj]. eapply Hd; eassumption.
  - intros Hpath i j gi gj path Hi Hj Hpi Hpj.
    simpl in Hpi, Hpj.
    apply JoinFacts.images_for_in in Hpi, Hpj.
    destruct Hpi as (k1 & p1 & Hin1 & Hp1 & _ & Hr1).
    destruct Hpj as (k2 & p2 & Hin2 & Hp2 & _ & Hr2).
    assert (k1 = k2) as -> by (eapply Hpath; eassumption).
    eapply Hd; eassumption.
Qed.

Lemma images_joined_once_witness :
  let row := {| raw_cls := Text "c"; raw_item := Text "i"; raw_no := Num (1 # 1);
                raw_question := Text "q"; raw_answer := Text "a" |} in
  let excel_file := [("S1", [row; row])] in
  let image_map := [(("S1", 2), ["json_output/image/S1_A2_image1.png"]);
                    (("S1", 3), ["json_output/image/S1_A3_image1.png"])] in
  exists g1 g2,
    melt_merged_rows Sample.cast (fun _ => EmptyString) (df_all excel_file) = Ok [g1; g2] /\
    (forall j gj,
        nth_error [g1; g2] j = Some gj ->
        In "json_output/image/S1_A2_image1.png"
           (image_urls (record_of image_map gj)) ->
        0%nat = j).
Proof.
  intros row excel_file image_map. do 2 eexists.
  split; [reflexivity |].
  intros j gj Hj Hp.
  refine (proj2 (proj2 (images_joined_once Sample.cast (fun _ => EmptyString) excel_file
                          _ image_map eq_refl))
                _ 0%nat j _ gj "json_output/image/S1_A2_image1.png"
                eq_refl Hj _ Hp).
  - intros k1 k2 p1 p2 path [[= <- <-] | [[= <- <-] | []]]
           [[= <- <-] | [[= <- <-] | []]] [<- | []] [E | []];
      try reflexivity; discriminate.
  - left. reflexivity.
Defined.

(** ** The relationship walk *)

Module ImageFacts.
Import Str Images.

Lemma sset_in {V} (k k0 : string) (v v0 : V) (d : list (string * V)) :
  In (k, v) (sset k0 v0 d) -> In (k, v) d \/ (k = k0 /\ v = v0).
Proof.
  induction d as [| [k' v'] d IH]; simpl.
  - intros [[= <- <-] | []]. now right.
  - destruct (String.eqb_spec k0 k') as [-> | NE]; simpl.
    + intros [[= <- <-] | Hin]; [now right | left; now right].
    + intros [E | Hin]; [left; now left |].
      destruct (IH Hin) as [H | H]; [left; now right | now right].
Qed.








Lemma foldM_invariant {A B} (f : B -> A -> result B) (P : B -> Prop)
      (l : list A) :
  (forall b x b', In x l -> P b -> f b x = Ok b' -> P b') ->
  forall b b', P b -> foldM f l b = Ok b' -> P b'.
Proof.
  induction l as [| x l IH]; intros Hf b b' Hb; simpl.
  - now intros [= <-].
  - destruct (f b x) as [b1 | e1] eqn:Ex; simpl; [| discriminate].
    apply IH.
    + intros b0 x0 b0' Hin. apply Hf. now right.
    + eapply Hf; [now left | exact Hb | exact Ex].
Qed.





End ImageFacts.

Import Str Images.

(** C4 (the code departs from it): the workbook part and the workbook
    relationship part are readable; sheet "S1" has a relationship part
    without a drawing relationship; a second worksheet relationship,
    "rId9", leads to a drawing and is the id of no sheet element of the
    workbook part. The scan does not pass the drawing over: the
    subscript [sheet_id_to_name[rId]] of line 130 raises a [KeyError],
    and no image map is produced, for sheet "S1" or any other. *)
Theorem undeclared_sheet_id_raises :
  let sheets := [ {| sheet_rid := "rId1"; sheet_name_attr := "S1" |} ] in
  let rels := [ {| rel_Id := "rId1"; rel_Type := "http://r/worksheet";
                   rel_Target := "worksheets/sheet1.xml" |};
                {| rel_Id := "rId9"; rel_Type := "http://r/worksheet";
                   rel_Target := "worksheets/sheet2.xml" |} ] in
  let pkg :=
    {| namelist := ["xl/workbook.xml"; "xl/_rels/workbook.xml.rels";
                    "xl/worksheets/_rels/sheet1.xml.rels";
                    "xl/worksheets/_rels/sheet2.xml.rels";
                    "xl/drawings/drawing1.xml"];
       workbook_xml := Some sheets;
       workbook_xml_rels := Some rels;
       rels_of := fun f =>
         if String.eqb f "xl/worksheets/_rels/sheet1.xml.rels"
         then [ {| rel_Id := "rId1"; rel_Type := "http://r/hyperlink";
                   rel_Target := "http://example.org" |} ]
         else if String.eqb f "xl/worksheets/_rels/sheet2.xml.rels"
         then [ {| rel_Id := "rId1"; rel_Type := "http://r/drawing";
                   rel_Target := "../drawings/drawing1.xml" |} ]
         else [];
       anchors_of := fun _ => [] |} in
  sget "sheet1.xml" (sheet_to_drawing pkg) = None /\
  sget "sheet2.xml" (sheet_to_drawing pkg) = Some "drawing1.xml" /\
  rId_to_sheet_file rels = [("rId1", "sheet1.xml"); ("rId9", "sheet2.xml")] /\
  sget "rId9" (sheet_id_to_name sheets) = None /\
  find_sheet_name (sheet_id_to_name sheets) (sheet_to_drawing pkg)
                  "drawing1.xml" (rId_to_sheet_file rels)
  = Raise (KeyError "rId9") /\
  extract_images pkg = Raise (KeyError "rId9").
Proof.
  cbv zeta. repeat split; vm_compute; reflexivity.
Qed.



(** ** Save names *)

(** C9 as stated fails: the image at B2 of sheet "A" from media file
    "C3_x.png" and the image at C3 of sheet "A_B2" from media file
    "x.png" are anchored at different cells and have the same save
    name. *)
Lemma save_name_collision :
  ~ (forall sheet1 sheet2 col1 row1 col2 row2 file1 file2,
        0 <= col1 -> 0 <= row1 -> 0 <= col2 -> 0 <= row2 ->
        (col1, row1) <> (col2, row2) ->
        save_name sheet1 (cell_name col1 row1) file1 <>
        save_name sheet2 (cell_name col2 row2) file2).
Proof.
  intros H.
  apply (H "A" "A_B2" 1 1 2 2 "C3_x.png" "x.png"); try lia.
  - intros [=].
  - reflexivity.
Qed.

(** C9, amended: the save name is the concatenation of the sheet name,
    "_", the cell label (column letters, then the one-based row) , "_"
    and the media file name, also as [scan_anchor] records it; for two
    images anchored at different cells the save names differ whenever
    the two images are on one sheet or have equal media file names. *)
Theorem save_name_distinct
        (sheet1 sheet2 : string) (col1 row1 col2 row2 : Z)
        (file1 file2 : string) :
  0 <= col1 -> 0 <= col2 ->
  sheet1 = sheet2 \/ file1 = file2 ->
  (col1, row1) <> (col2, row2) ->
  save_name sheet1 (cell_name col1 row1) file1 =
  (sheet1 ++ "_" ++
   (Codec.colnum_to_excel_col col1 ++ str_of_int (row1 + 1)) ++
   "_" ++ file1)%string /\
  (forall pkg d2i drawing_name reg embed,
      lookup_image d2i drawing_name embed = Some file1 ->
      file1 <> EmptyString ->
      existsb (String.eqb ("xl/media/" ++ file1)%string) (namelist pkg) = true ->
      saved (scan_anchor pkg d2i drawing_name sheet1 reg
                         {| from_col := col1; from_row := row1;
                            blip := Some embed |}) =
      saved reg ++ [save_name sheet1 (cell_name col1 row1) file1]) /\
  save_name sheet1 (cell_name col1 row1) file1 <>
  save_name sheet2 (cell_name col2 row2) file2.
Proof.
  intros H1 H2 Hsame Hcell. split; [reflexivity |]. split.
  - intros pkg d2i drawing_name reg embed Hl Hne Hm.
    unfold scan_anchor. cbn [blip from_col from_row]. rewrite Hl.
    destruct file1 as [| c file1]; [contradiction |].
    now rewrite Hm.
  - intros E. apply Hcell.
    destruct Hsame as [<- | <-].
    + apply NameFacts.save_name_same_sheet in E; try assumption.
      destruct E as [-> ->]. reflexivity.
    + apply NameFacts.save_name_same_file in E; try assumption.
      destruct E as (_ & -> & ->). reflexivity.
Qed.

Lemma save_name_distinct_witness :
  0 <= 1 /\ 0 <= 2 /\ ("S" = "S" \/ "image1.png" = "image2.png") /\
  (1, 1) <> (2, 2) /\
  save_name "S" (cell_name 1 1) "image1.png" = "S_B2_image1.png" /\
  save_name "S" (cell_name 1 1) "image1.png" <>
  save_name "S" (cell_name 2 2) "image2.png".
Proof.
  pose proof (save_name_distinct "S" "S" 1 1 2 2 "image1.png" "image2.png")
    as H.
  assert (Hc : (1, 1) <> (2, 2)) by (intros [=]).
  destruct H as (Hname & _ & Hne);
    [lia | lia | now left | exact Hc |].
  repeat split; try lia; [now left | exact Hc | exact Hne].
Defined.

(** * Further properties of the code *)

(** ** The column codec on all indices *)

Module CodecMore.
Import Codec.

Lemma str_app_assoc (a b c : string) :
  ((a ++ b) ++ c)%string = (a ++ (b ++ c))%string.
Proof.
  induction a as [| x a IH]; simpl; [reflexivity | now rewrite IH].
Qed.

Lemma colnum_loop_app (col_num : Z) (result : string) :
  colnum_loop col_num result = (colnum_loop col_num "" ++ result)%string.
Proof.
  destruct (Z_le_gt_dec 0 col_num) as [Hc | Hc].
  - revert col_num Hc result.
    apply (Zlt_0_ind (fun c => forall result,
             colnum_loop c result = (colnum_loop c "" ++ result)%string)).
    intros c IH Hc result.
    rewrite !(CodecFacts.colnum_loop_nonneg c) by exact Hc.
    destruct (Z_le_gt_dec 26 c) as [Hbig | Hsmall].
    + assert (1 <= c / 26) by (apply Z.div_le_lower_bound; lia).
      assert (c / 26 <= c) by (apply Z.div_le_upper_bound; lia).
      rewrite (IH (c / 26 - 1)) by lia.
      rewrite (IH (c / 26 - 1) ltac:(lia) (String (letter c) "")).
      rewrite str_app_assoc. reflexivity.
    + assert (c / 26 = 0) by (apply Z.div_small; lia).
      rewrite !CodecFacts.colnum_loop_neg by lia. reflexivity.
  - rewrite !CodecFacts.colnum_loop_neg by lia. reflexivity.
Qed.

Lemma letter_of_digit (c : ascii) :
  NameFacts.is_upper c = true ->
  1 <= digit_of c <= 26 /\ forall q, letter (q * 26 + digit_of c - 1) = c.
Proof.
  unfold NameFacts.is_upper, digit_of, letter. intros H.
  apply andb_prop in H. destruct H as [H1 H2].
  apply Nat.leb_le in H1, H2. split; [lia |]. intros q.
  replace (q * 26 + (Z.of_nat (nat_of_ascii c) - 64) - 1)
    with (Z.of_nat (nat_of_ascii c) - 65 + q * 26) by lia.
  rewrite Z.mod_add by lia. rewrite Z.mod_small by lia.
  replace (Z.to_nat (Z.of_nat (nat_of_ascii c) - 65 + 65))
    with (nat_of_ascii c) by lia.
  apply ascii_nat_embedding.
Qed.

Lemma b26_value_nonneg (s : string) :
  Forall (fun c => NameFacts.is_upper c = true) (NameFacts.chars s) ->
  forall acc, 0 <= acc -> 0 <= b26_value acc s.
Proof.
  induction s as [| c s IH]; simpl; intros H acc Hacc; [exact Hacc |].
  inversion H as [| ? ? Hc Hs]; subst.
  destruct (letter_of_digit c Hc) as [Hd _].
  apply IH; [exact Hs | lia].
Qed.

(** Reading capitals and writing them back, with the letters already
    read held in [acc]. *)
Lemma colnum_loop_b26_value (s : string) :
  Forall (fun c => NameFacts.is_upper c = true) (NameFacts.chars s) ->
  forall acc result,
    0 <= acc ->
    colnum_loop (b26_value acc s - 1) result =
    (colnum_loop (acc - 1) "" ++ s ++ result)%string.
Proof.
  induction s as [| c s IH]; simpl; intros H acc result Hacc.
  - apply colnum_loop_app.
  - inversion H as [| ? ? Hc Hs]; subst.
    destruct (letter_of_digit c Hc) as [Hd Hl].
    rewrite IH by (try assumption; lia).
    rewrite (CodecFacts.colnum_loop_nonneg (acc * 26 + digit_of c - 1))
      by lia.
    rewrite Hl.
    replace ((acc * 26 + digit_of c - 1) / 26 - 1) with (acc - 1).
    + rewrite (colnum_loop_app (acc - 1) (String c "")).
      rewrite str_app_assoc. reflexivity.
    + replace (acc * 26 + digit_of c - 1) with (digit_of c - 1 + acc * 26)
        by lia.
      rewrite Z.div_add by lia. rewrite Z.div_small by lia. lia.
Qed.

End CodecMore.

(** X1: [colnum_to_excel_col] is injective on the indices from 0 on:
    two different columns never get the same letters (the decoding
    gives the index back for every index, not only up to 10000). *)
Theorem colnum_to_excel_col_injective (m n : Z) :
  0 <= m -> 0 <= n ->
  Codec.colnum_to_excel_col m = Codec.colnum_to_excel_col n ->
  m = n /\ Codec.excel_col_to_colnum (Codec.colnum_to_excel_col m) = m.
Proof.
  intros Hm Hn E. split.
  - now apply CodecFacts.colnum_to_excel_col_inj.
  - now apply CodecFacts.decode_encode.
Qed.

Lemma colnum_to_excel_col_injective_witness :
  0 <= 18277 /\ Codec.colnum_to_excel_col 18277 = "ZZZ" /\
  Codec.excel_col_to_colnum (Codec.colnum_to_excel_col 18277) = 18277.
Proof.
  split; [lia |]. split; [reflexivity |].
  apply (colnum_to_excel_col_injective 18277 18277); try lia. reflexivity.
Defined.

(** X2: every non-empty word of capital letters is the label of the
    index it decodes to: [colnum_to_excel_col] after the reference
    decoding is the identity on such words, so the codec is a bijection
    between the indices from 0 on and the non-empty capital words. *)
Theorem colnum_to_excel_col_of_label (s : string) :
  s <> EmptyString ->
  Forall (fun c => NameFacts.is_upper c = true) (NameFacts.chars s) ->
  0 <= Codec.excel_col_to_colnum s /\
  Codec.colnum_to_excel_col (Codec.excel_col_to_colnum s) = s.
Proof.
  intros Hne Hs. unfold Codec.excel_col_to_colnum, Codec.colnum_to_excel_col.
  split.
  - destruct s as [| c s]; [contradiction |]. cbn [Codec.b26_value].
    inversion Hs as [| ? ? Hc Hs']; subst.
    destruct (CodecMore.letter_of_digit c Hc) as [Hd _].
    assert (forall t acc,
               Forall (fun c => NameFacts.is_upper c = true) (NameFacts.chars t) ->
               1 <= acc -> 1 <= Codec.b26_value acc t) as Hge.
    { induction t as [| c' t IH]; simpl; intros acc Ht Hacc; [exact Hacc |].
      inversion Ht as [| ? ? Hc' Ht']; subst.
      destruct (CodecMore.letter_of_digit c' Hc') as [Hd' _].
      apply IH; [exact Ht' | lia]. }
    specialize (Hge s (0 * 26 + Codec.digit_of c) Hs' ltac:(lia)). lia.
  - rewrite (CodecMore.colnum_loop_b26_value s Hs 0 "") by lia.
    rewrite CodecFacts.colnum_loop_neg by lia. simpl.
    clear. induction s as [| c s IH]; simpl; [reflexivity | now rewrite IH].
Qed.

Lemma colnum_to_excel_col_of_label_witness :
  Codec.excel_col_to_colnum "XFD" = 16383 /\
  Codec.colnum_to_excel_col (Codec.excel_col_to_colnum "XFD") = "XFD".
Proof.
  split; [reflexivity |].
  apply (colnum_to_excel_col_of_label "XFD"); [discriminate |].
  repeat constructor.
Defined.

(** X3: the shape of a label: a negative index gives the empty
    string; an index from 0 on gives a non-empty word of capital
    letters only, which is the label of [col_num // 26 - 1] followed by
    the letter of [col_num % 26]. *)
Theorem colnum_to_excel_col_shape (col_num : Z) :
  (col_num < 0 -> Codec.colnum_to_excel_col col_num = EmptyString) /\
  (0 <= col_num ->
   Codec.colnum_to_excel_col col_num <> EmptyString /\
   Forall (fun c => NameFacts.is_upper c = true)
          (NameFacts.chars (Codec.colnum_to_excel_col col_num)) /\
   Codec.colnum_to_excel_col col_num =
   (Codec.colnum_to_excel_col (col_num / 26 - 1)
    ++ String (Codec.letter col_num) EmptyString)%string).
Proof.
  unfold Codec.colnum_to_excel_col. split.
  - intros H. now apply CodecFacts.colnum_loop_neg.
  - intros H.
    assert (E : Codec.colnum_loop col_num "" =
                (Codec.colnum_loop (col_num / 26 - 1) ""
                 ++ String (Codec.letter col_num) "")%string).
    { rewrite CodecFacts.colnum_loop_nonneg by exact H.
      apply CodecMore.colnum_loop_app. }
    split; [| split; [| exact E]].
    + rewrite E. destruct (Codec.colnum_loop (col_num / 26 - 1) "");
        discriminate.
    + now apply (NameFacts.colnum_upper col_num).
Qed.

Lemma colnum_to_excel_col_shape_witness :
  Codec.colnum_to_excel_col (-3) = EmptyString /\
  Codec.colnum_to_excel_col 27 <> EmptyString /\
  Codec.colnum_to_excel_col 27 =
  (Codec.colnum_to_excel_col 0 ++ "B")%string.
Proof.
  split.
  - apply (proj1 (colnum_to_excel_col_shape (-3))). lia.
  - destruct (proj2 (colnum_to_excel_col_shape 27)) as (Hne & _ & E); [lia |].
    split; [exact Hne | exact E].
Defined.

(** X4: the cell label of line 154 determines the cell: for columns
    from 0 on, two anchors with equal labels have the same column and
    the same row. *)
Theorem cell_name_injective (col1 row1 col2 row2 : Z) :
  0 <= col1 -> 0 <= col2 ->
  Images.cell_name col1 row1 = Images.cell_name col2 row2 ->
  col1 = col2 /\ row1 = row2.
Proof. apply NameFacts.cell_name_inj. Qed.

Lemma cell_name_injective_witness :
  Images.cell_name 27 9 = "AB10" /\ (27 = 27 /\ 9 = 9).
Proof.
  split; [reflexivity |].
  apply (cell_name_injective 27 9 27 9); try lia. reflexivity.
Defined.

(** ** The four lookup tables *)

Module TableFacts.
Import Str Images.

Lemma sget_sset {V} (k k0 : string) (v : V) (d : list (string * V)) :
  sget k (sset k0 v d) = if String.eqb k k0 then Some v else sget k d.
Proof.
  induction d as [| [k' v'] d IH]; simpl; [reflexivity |].
  destruct (String.eqb_spec k0 k') as [-> | NE]; simpl.
  - destruct (String.eqb k k'); reflexivity.
  - rewrite IH.
    destruct (String.eqb_spec k k') as [-> | NE']; [| reflexivity].
    destruct (String.eqb_spec k' k0) as [E | _]; [| reflexivity].
    now subst.
Qed.

Lemma find_app {A} (p : A -> bool) (l l' : list A) :
  find p (l ++ l') =
  match find p l with
  | Some x => Some x
  | None => find p l'
  end.
Proof.
  induction l as [| a l IH]; simpl; [reflexivity |].
  destruct (p a); [reflexivity | exact IH].
Qed.

(** Looking a key up in a table filled by assignments: the last
    assignment to the key gives the value. *)
Lemma sget_fold {A V} (f : list (string * V) -> A -> list (string * V))
      (c : A -> bool) (key : A -> string) (val : A -> V) :
  (forall d x, f d x = if c x then sset (key x) (val x) d else d) ->
  forall l d k,
    sget k (fold_left f l d) =
    match find (fun x => c x && String.eqb k (key x)) (rev l) with
    | Some x => Some (val x)
    | None => sget k d
    end.
Proof.
  intros Hf. induction l as [| x l IH]; intros d k; simpl; [reflexivity |].
  rewrite IH, find_app. simpl.
  destruct (find _ (rev l)); [reflexivity |].
  rewrite Hf. destruct (c x); simpl.
  - rewrite sget_sset. destruct (String.eqb k (key x)); reflexivity.
  - reflexivity.
Qed.

Lemma sset_keys_NoDup {V} (k0 : string) (v : V) (d : list (string * V)) :
  NoDup (map fst d) -> NoDup (map fst (sset k0 v d)).
Proof.
  induction d as [| [k' v'] d IH]; simpl; intros H.
  - constructor; [intros [] | constructor].
  - destruct (String.eqb_spec k0 k') as [-> | NE]; simpl; [exact H |].
    inversion H as [| ? ? Hnotin Hd]; subst.
    constructor; [| now apply IH].
    intros Hin. apply in_map_iff in Hin.
    destruct Hin as ([k v0] & Hk & Hin). simpl in Hk. subst k.
    apply ImageFacts.sset_in in Hin. destruct Hin as [Hin | [E _]].
    + apply Hnotin. apply in_map_iff. now exists (k', v0).
    + congruence.
Qed.

Lemma fold_keys_NoDup {A V} (f : list (string * V) -> A -> list (string * V))
      (c : A -> bool) (key : A -> string) (val : A -> V) :
  (forall d x, f d x = if c x then sset (key x) (val x) d else d) ->
  forall l d, NoDup (map fst d) -> NoDup (map fst (fold_left f l d)).
Proof.
  intros Hf. induction l as [| x l IH]; intros d H; simpl; [exact H |].
  apply IH. rewrite Hf. destruct (c x); [| exact H].
  now apply sset_keys_NoDup.
Qed.

End TableFacts.

(** X5: [sheet_id_to_name] maps a relationship id to the name of the
    last sheet element of the workbook that carries it, and has no entry
    for an id that no sheet element carries. *)
Theorem sheet_id_to_name_lookup (sheets : list Images.SheetElt) (rId : string) :
  sget rId (Images.sheet_id_to_name sheets) =
  option_map Images.sheet_name_attr
             (find (fun sh => String.eqb rId (Images.sheet_rid sh))
                   (rev sheets)).
Proof.
  unfold Images.sheet_id_to_name.
  rewrite (TableFacts.sget_fold _ (fun _ => true) Images.sheet_rid
                                Images.sheet_name_attr)
    by reflexivity.
  simpl. destruct (find _ (rev sheets)); reflexivity.
Qed.

(** X6: [rId_to_sheet_file] maps an id to the base name of the target
    of the last workbook relationship with that id whose type ends in
    "/worksheet"; relationships of other types give no entry; and no id
    has two entries. *)
Theorem rId_to_sheet_file_lookup (rels : list Images.Relationship)
        (rId : string) :
  sget rId (Images.rId_to_sheet_file rels) =
  option_map (fun rel => Str.last_segment (Images.rel_Target rel))
             (find (fun rel =>
                      Str.endswith "/worksheet" (Images.rel_Type rel)
                      && String.eqb rId (Images.rel_Id rel))
                   (rev rels)) /\
  NoDup (map fst (Images.rId_to_sheet_file rels)).
Proof.
  unfold Images.rId_to_sheet_file. split.
  - rewrite (TableFacts.sget_fold
               _ (fun rel => Str.endswith "/worksheet" (Images.rel_Type rel))
               Images.rel_Id
               (fun rel => Str.last_segment (Images.rel_Target rel)))
      by reflexivity.
    simpl. destruct (find _ (rev rels)); reflexivity.
  - apply (TableFacts.fold_keys_NoDup
             _ (fun rel => Str.endswith "/worksheet" (Images.rel_Type rel))
             Images.rel_Id
             (fun rel => Str.last_segment (Images.rel_Target rel)));
      [reflexivity | constructor].
Qed.

(** X7: [sheet_to_drawing] looks only at the entries under
    "xl/worksheets/_rels/" that end in ".xml.rels" and, in them, at the
    relationships whose type ends in "/drawing": a sheet file name is
    mapped to the base name of the target of the last such relationship
    (in archive order, then document order) found in an entry whose base
    name without ".rels" is that sheet file name. *)
Theorem sheet_to_drawing_lookup (pkg : Images.Package) (sheet_file : string) :
  let candidates :=
    flat_map (fun f => map (pair f) (Images.rels_of pkg f))
             (filter (fun f => Str.startswith "xl/worksheets/_rels/" f
                               && Str.endswith ".xml.rels" f)
                     (Images.namelist pkg)) in
  sget sheet_file (Images.sheet_to_drawing pkg) =
  option_map (fun fr => Str.last_segment (Images.rel_Target (snd fr)))
             (find (fun fr =>
                      Str.endswith "/drawing" (Images.rel_Type (snd fr))
                      && String.eqb sheet_file
                           (Str.remove_all ".rels" (Str.last_segment (fst fr))))
                   (rev candidates)).
Proof.
  cbv zeta. unfold Images.sheet_to_drawing.
  set (g := fun (d : list (string * string))
                (fr : string * Images.Relationship) =>
              if Str.endswith "/drawing" (Images.rel_Type (snd fr))
              then sset (Str.remove_all ".rels" (Str.last_segment (fst fr)))
                        (Str.last_segment (Images.rel_Target (snd fr))) d
              else d).
  assert (Einner : forall f rels d,
             fold_left
               (fun d rel =>
                  if Str.endswith "/drawing" (Images.rel_Type rel)
                  then sset (Str.remove_all ".rels" (Str.last_segment f))
                            (Str.last_segment (Images.rel_Target rel)) d
                  else d) rels d
             = fold_left g (map (pair f) rels) d).
  { intros f rels. induction rels as [| rel rels IH]; intros d; simpl;
      [reflexivity | apply IH]. }
  assert (E : forall l d,
             fold_left
               (fun d f =>
                  if Str.startswith "xl/worksheets/_rels/" f
                     && Str.endswith ".xml.rels" f
                  then fold_left
                         (fun d rel =>
                            if Str.endswith "/drawing" (Images.rel_Type rel)
                            then sset (Str.remove_all ".rels" (Str.last_segment f))
                                      (Str.last_segment (Images.rel_Target rel)) d
                            else d)
                         (Images.rels_of pkg f) d
                  else d) l d
             = fold_left g
                 (flat_map (fun f => map (pair f) (Images.rels_of pkg f))
                    (filter (fun f => Str.startswith "xl/worksheets/_rels/" f
                                      && Str.endswith ".xml.rels" f) l)) d).
  { induction l as [| f l IH]; intros d; simpl; [reflexivity |].
    destruct (Str.startswith "xl/worksheets/_rels/" f
              && Str.endswith ".xml.rels" f); simpl; [| apply IH].
    rewrite fold_left_app, <- Einner. apply IH. }
  rewrite E.
  rewrite (TableFacts.sget_fold
             g (fun fr => Str.endswith "/drawing" (Images.rel_Type (snd fr)))
             (fun fr => Str.remove_all ".rels" (Str.last_segment (fst fr)))
             (fun fr => Str.last_segment (Images.rel_Target (snd fr))))
    by reflexivity.
  simpl. destruct (find _ _); reflexivity.
Qed.

(** ** The image registry *)

Module RegistryFacts.
Import Str Images Index.

Lemma key_eqb_eq (a b : string * Z) : key_eqb a b = true <-> a = b.
Proof.
  destruct a as [s r], b as [s' r']. unfold key_eqb. simpl.
  rewrite andb_true_iff, String.eqb_eq, Z.eqb_eq.
  split; [intros [-> ->]; reflexivity | intros [= -> ->]; now split].
Qed.

Lemma key_eqb_refl (a : string * Z) : key_eqb a a = true.
Proof. now apply key_eqb_eq. Qed.

Lemma key_eqb_neq (a b : string * Z) : a <> b -> key_eqb a b = false.
Proof.
  intros H. destruct (key_eqb a b) eqn:E; [| reflexivity].
  apply key_eqb_eq in E. contradiction.
Qed.

Section Append.
Variable k : string * Z.
Variable v : string.

Lemma append_get_same (m : list ((string * Z) * list string)) :
  dict_get key_eqb k (setdefault_append key_eqb k v m) =
  Some (paths_at k m ++ [v]).
Proof.
  unfold paths_at. induction m as [| [k' vs] m IH]; simpl.
  - now rewrite key_eqb_refl.
  - destruct (key_eqb k k') eqn:E; simpl; rewrite E; [reflexivity | exact IH].
Qed.

Lemma append_get_other (k' : string * Z)
      (m : list ((string * Z) * list string)) :
  k' <> k ->
  dict_get key_eqb k' (setdefault_append key_eqb k v m) =
  dict_get key_eqb k' m.
Proof.
  intros NE. induction m as [| [k0 vs] m IH]; simpl.
  - now rewrite (key_eqb_neq k' k NE).
  - destruct (key_eqb k k0) eqn:E; simpl.
    + apply key_eqb_eq in E. subst k0.
      now rewrite (key_eqb_neq k' k NE).
    + destruct (key_eqb k' k0); [reflexivity | exact IH].
Qed.

Lemma append_keys_NoDup (m : list ((string * Z) * list string)) :
  NoDup (map fst m) -> NoDup (map fst (setdefault_append key_eqb k v m)).
Proof.
  induction m as [| [k' vs] m IH]; simpl; intros H.
  - constructor; [intros [] | constructor].
  - destruct (key_eqb k k') eqn:E; simpl; [exact H |].
    inversion H as [| ? ? Hnotin Hm]; subst.
    constructor; [| now apply IH].
    intros Hin.
    assert (G : forall m0, In k' (map fst (setdefault_append key_eqb k v m0)) ->
                           In k' (map fst m0) \/ k' = k).
    { induction m0 as [| [k0 vs0] m0 IH0]; simpl.
      - intros [<- | []]. now right.
      - destruct (key_eqb k k0); simpl; [now left |].
        intros [<- | H0]; [left; now left |].
        destruct (IH0 H0) as [H1 | H1]; [left; now right | now right]. }
    destruct (G m Hin) as [H1 | H1]; [contradiction |].
    subst k'. rewrite key_eqb_refl in E. discriminate.
Qed.

Lemma append_in (m : list ((string * Z) * list string))
      (k' : string * Z) (ps : list string) (x : string) :
  In (k', ps) (setdefault_append key_eqb k v m) -> In x ps ->
  (exists ps', In (k', ps') m /\ In x ps') \/ (k' = k /\ x = v).
Proof.
  induction m as [| [k0 vs] m IH]; simpl.
  - intros [[= <- <-] | []] [<- | []]. now right.
  - destruct (key_eqb k k0) eqn:E; simpl.
    + intros [[= <- <-] | Hin] Hx.
      * apply in_app_or in Hx. destruct Hx as [Hx | [<- | []]].
        -- left. exists vs. split; [now left | exact Hx].
        -- right. apply key_eqb_eq in E. now split.
      * left. exists ps. split; [now right | exact Hx].
    + intros [[= <- <-] | Hin] Hx.
      * left. exists vs. split; [now left | exact Hx].
      * destruct (IH Hin Hx) as [(ps' & Hin' & Hx') | H]; [| now right].
        left. exists ps'. split; [now right | exact Hx'].
Qed.

Lemma append_perm (m : list ((string * Z) * list string)) :
  Permutation (flat_map snd (setdefault_append key_eqb k v m))
              (flat_map snd m ++ [v]).
Proof.
  induction m as [| [k' vs] m IH]; simpl; [reflexivity |].
  destruct (key_eqb k k'); simpl.
  - rewrite <- !app_assoc. apply Permutation_app_head.
    apply Permutation_app_comm.
  - rewrite <- app_assoc. now apply Permutation_app_head.
Qed.
End Append.

(** The two outcomes of [scan_anchor]. *)
Lemma scan_anchor_cases (pkg : Package)
      (d2i : list (string * list (string * string)))
      (drawing_name sheet_name : string) (reg : Registry) (anchor : Anchor) :
  scan_anchor pkg d2i drawing_name sheet_name reg anchor = reg \/
  exists embed c image_file,
    blip anchor = Some embed /\
    lookup_image d2i drawing_name embed = Some (String c image_file) /\
    In ("xl/media/" ++ String c image_file)%string (namelist pkg) /\
    scan_anchor pkg d2i drawing_name sheet_name reg anchor =
    {| image_map :=
         setdefault_append
           key_eqb (sheet_name, from_row anchor + 1)
           (save_path (save_name sheet_name
                                 (cell_name (from_col anchor) (from_row anchor))
                                 (String c image_file)))
           (image_map reg);
       saved := saved reg
                ++ [save_name sheet_name
                              (cell_name (from_col anchor) (from_row anchor))
                              (String c image_file)] |}.
Proof.
  unfold scan_anchor.
  destruct (blip anchor) as [embed |]; [| now left].
  destruct (lookup_image d2i drawing_name embed) as [[| c image_file] |] eqn:El;
    try (now left).
  destruct (existsb _ (namelist pkg)) eqn:Ex; [| now left].
  right. exists embed, c, image_file.
  split; [reflexivity |]. split; [exact El |]. split; [| reflexivity].
  apply existsb_exists in Ex. destruct Ex as (x & Hx & E).
  apply String.eqb_eq in E. subst x. exact Hx.
Qed.

(** What one drawing part does to the registry. *)
Lemma scan_drawing_cases (pkg : Package)
      (s2n rel2sheet s2d : list (string * string))
      (d2i : list (string * list (string * string)))
      (reg reg' : Registry) (drawing_xml : string) :
  scan_drawing pkg s2n rel2sheet s2d d2i reg drawing_xml = Ok reg' ->
  reg' = reg \/
  exists c name,
    find_sheet_name s2n s2d (last_segment drawing_xml) rel2sheet
    = Ok (Some (String c name)) /\
    reg' = fold_left (scan_anchor pkg d2i (last_segment drawing_xml)
                                  (String c name))
                     (anchors_of pkg drawing_xml) reg.
Proof.
  unfold scan_drawing.
  destruct (find_sheet_name s2n s2d (last_segment drawing_xml) rel2sheet)
    as [[[| c name] |] | e]; simpl; try discriminate;
    intros [= <-]; [now left | | now left].
  right. now exists c, name.
Qed.

Lemma fold_left_invariant {A B} (f : B -> A -> B) (P : B -> Prop)
      (l : list A) :
  (forall b x, In x l -> P b -> P (f b x)) ->
  forall b, P b -> P (fold_left f l b).
Proof.
  induction l as [| x l IH]; intros Hf b Hb; simpl; [exact Hb |].
  apply IH.
  - intros b0 x0 Hin. apply Hf. now right.
  - apply Hf; [now left | exact Hb].
Qed.

(** An invariant of the registry, kept by every anchor of every
    drawing part, holds of the result of the scan. *)
Lemma extract_images_invariant (pkg : Package) (P : Registry -> Prop) :
  P empty_registry ->
  (forall d2i drawing_xml sheet_name reg anchor,
      In drawing_xml (namelist pkg) ->
      is_drawing_part drawing_xml = true ->
      In anchor (anchors_of pkg drawing_xml) ->
      sheet_name <> EmptyString ->
      P reg ->
      P (scan_anchor pkg d2i (last_segment drawing_xml) sheet_name reg anchor)) ->
  forall reg, extract_images pkg = Ok reg -> P reg.
Proof.
  intros H0 Hstep reg. unfold extract_images.
  destruct (workbook_xml pkg) as [sheets |]; simpl; [| discriminate].
  destruct (workbook_xml_rels pkg) as [rels |]; simpl; [| discriminate].
  apply ImageFacts.foldM_invariant; [| exact H0].
  intros b drawing_xml b' Hin Hb Hs.
  apply filter_In in Hin. destruct Hin as [Hin Hd].
  apply scan_drawing_cases in Hs.
  destruct Hs as [-> | (c & name & _ & ->)]; [exact Hb |].
  apply fold_left_invariant; [| exact Hb].
  intros b0 anchor Ha Hb0. apply Hstep; try assumption. discriminate.
Qed.

End RegistryFacts.

Import Index.

(** X8: [image_map] never has two entries for one (sheet, row) key. *)
Theorem image_map_keys_unique (pkg : Package) (reg : Registry) :
  extract_images pkg = Ok reg -> NoDup (map fst (image_map reg)).
Proof.
  apply (RegistryFacts.extract_images_invariant
           pkg (fun reg => NoDup (map fst (image_map reg)))).
  - constructor.
  - intros d2i drawing_xml sheet_name reg0 anchor _ _ _ _ H.
    destruct (RegistryFacts.scan_anchor_cases
                pkg d2i (last_segment drawing_xml) sheet_name reg0 anchor)
      as [-> | (embed & c & image_file & _ & _ & _ & ->)]; [exact H |].
    simpl. now apply RegistryFacts.append_keys_NoDup.
Qed.

(** X9: every path registered in [image_map] comes from an anchor of a
    drawing part of the archive whose media part is in the archive: the
    key is a non-empty sheet name with the anchor's row plus one, and
    the path is the output directory, "/", and the save name built from
    that sheet name, the anchor's cell label and a non-empty media file
    name. Nothing is registered for a media part that is absent. *)
Theorem image_map_sound (pkg : Package) (reg : Registry) :
  extract_images pkg = Ok reg ->
  forall key paths path,
    In (key, paths) (image_map reg) -> In path paths ->
    exists drawing_xml anchor image_file,
      In drawing_xml (namelist pkg) /\
      is_drawing_part drawing_xml = true /\
      In anchor (anchors_of pkg drawing_xml) /\
      In ("xl/media/" ++ image_file)%string (namelist pkg) /\
      image_file <> EmptyString /\ fst key <> EmptyString /\
      snd key = from_row anchor + 1 /\
      path = save_path (save_name (fst key)
                                  (cell_name (from_col anchor) (from_row anchor))
                                  image_file).
Proof.
  apply (RegistryFacts.extract_images_invariant
           pkg
           (fun reg =>
              forall key paths path,
                In (key, paths) (image_map reg) -> In path paths ->
                exists drawing_xml anchor image_file,
                  In drawing_xml (namelist pkg) /\
                  is_drawing_part drawing_xml = true /\
                  In anchor (anchors_of pkg drawing_xml) /\
                  In ("xl/media/" ++ image_file)%string (namelist pkg) /\
                  image_file <> EmptyString /\ fst key <> EmptyString /\
                  snd key = from_row anchor + 1 /\
                  path = save_path
                           (save_name (fst key)
                                      (cell_name (from_col anchor)
                                                 (from_row anchor))
                                      image_file))).
  - intros key paths path [].
  - intros d2i drawing_xml sheet_name reg0 anchor Hd Hp Ha Hs H key paths path.
    destruct (RegistryFacts.scan_anchor_cases
                pkg d2i (last_segment drawing_xml) sheet_name reg0 anchor)
      as [-> | (embed & c & image_file & _ & _ & Hm & ->)]; [apply H |].
    simpl. intros Hin Hx.
    destruct (RegistryFacts.append_in _ _ _ _ _ _ Hin Hx)
      as [(ps' & Hin' & Hx') | [-> ->]].
    + now apply (H key ps' path).
    + exists drawing_xml, anchor, (String c image_file).
      repeat split; try assumption; discriminate.
Qed.

(** X10: the paths registered in [image_map], all keys together, are
    the files written, each once: the registry lists a saved image once
    per anchor that saved it. *)
Theorem image_map_lists_saved (pkg : Package) (reg : Registry) :
  extract_images pkg = Ok reg ->
  Permutation (flat_map snd (image_map reg)) (map save_path (saved reg)).
Proof.
  apply (RegistryFacts.extract_images_invariant
           pkg
           (fun reg => Permutation (flat_map snd (image_map reg))
                                   (map save_path (saved reg)))).
  - constructor.
  - intros d2i drawing_xml sheet_name reg0 anchor _ _ _ _ H.
    destruct (RegistryFacts.scan_anchor_cases
                pkg d2i (last_segment drawing_xml) sheet_name reg0 anchor)
      as [-> | (embed & c & image_file & _ & _ & _ & ->)]; [exact H |].
    simpl. rewrite RegistryFacts.append_perm, map_app. simpl.
    now apply Permutation_app_tail.
Qed.

(** X11: an anchor whose image resolves (it has a blip, the embed id
    has a non-empty media file name in the table of the drawing, and
    the media part is in the archive) adds its path at the end of the
    list of its own (sheet, row + 1) key and leaves the lists of all
    other keys as they were: images anchored in one row accumulate in
    scan order. *)
Theorem scan_anchor_appends
        (pkg : Package) (d2i : list (string * list (string * string)))
        (drawing_name sheet_name : string) (reg : Registry) (anchor : Anchor)
        (embed : option string) (image_file : string) :
  blip anchor = Some embed ->
  lookup_image d2i drawing_name embed = Some image_file ->
  image_file <> EmptyString ->
  In ("xl/media/" ++ image_file)%string (namelist pkg) ->
  let reg' := scan_anchor pkg d2i drawing_name sheet_name reg anchor in
  let key := (sheet_name, from_row anchor + 1) in
  paths_at key (image_map reg') =
  paths_at key (image_map reg)
  ++ [save_path (save_name sheet_name
                           (cell_name (from_col anchor) (from_row anchor))
                           image_file)] /\
  (forall key', key' <> key ->
                paths_at key' (image_map reg') = paths_at key' (image_map reg)) /\
  saved reg' =
  saved reg ++ [save_name sheet_name
                          (cell_name (from_col anchor) (from_row anchor))
                          image_file].
Proof.
  intros Hb Hl Hne Hm reg' key. subst reg'. unfold scan_anchor.
  rewrite Hb, Hl. destruct image_file as [| c image_file]; [contradiction |].
  replace (existsb _ (namelist pkg)) with true.
  - simpl. split; [| split; [| reflexivity]].
    + unfold paths_at at 1. now rewrite RegistryFacts.append_get_same.
    + intros key' NE. unfold paths_at.
      now rewrite RegistryFacts.append_get_other.
  - symmetry. apply existsb_exists.
    exists ("xl/media/" ++ String c image_file)%string.
    split; [exact Hm | apply String.eqb_refl].
Qed.

Lemma scan_anchor_appends_witness :
  let pkg := {| namelist := ["xl/media/image1.png"];
                workbook_xml := None; workbook_xml_rels := None;
                rels_of := fun _ => []; anchors_of := fun _ => [] |} in
  let d2i := [("drawing1.xml", [("rId1", "image1.png")])] in
  let reg := {| image_map := [(("S", 3), ["json_output/image/S_A3_image0.png"])];
                saved := ["S_A3_image0.png"] |} in
  let anchor := {| from_col := 1; from_row := 2; blip := Some (Some "rId1") |} in
  paths_at ("S", 3)
           (image_map (scan_anchor pkg d2i "drawing1.xml" "S" reg anchor)) =
  ["json_output/image/S_A3_image0.png"; "json_output/image/S_B3_image1.png"].
Proof.
  intros pkg d2i reg anchor.
  apply (proj1 (scan_anchor_appends pkg d2i "drawing1.xml" "S" reg anchor
                                    (Some "rId1") "image1.png"
                                    eq_refl eq_refl
                                    ltac:(discriminate)
                                    ltac:(left; reflexivity))).
Defined.

(** ** More on the melt *)

Module MeltMore.
Import Melt Pass MeltFacts.

Lemma mapM_length {A B} (f : A -> result B) (l : list A) (ys : list B) :
  mapM f l = Ok ys -> List.length ys = List.length l.
Proof.
  intros H. apply mapM_ok_iff in H.
  induction H; simpl; [reflexivity | now f_equal].
Qed.

(** One more group than rows with a classification after the open
    one. *)
Lemma blocks_scan_length (df : DataFrame) :
  forall lc li ln k cur,
    List.length (blocks k cur (scan lc li ln k df)) =
    S (List.length (filter notna (column r_cls df))).
Proof.
  induction df as [| [i r] df IH]; intros lc li ln k cur; [reflexivity |].
  cbn [scan blocks m_grp column map filter snd].
  change (map (fun ir => r_cls (snd ir)) df) with (column r_cls df).
  destruct (notna (r_cls r)) eqn:E.
  - destruct (Nat.eqb_spec (S k) k) as [Hk | _]; [lia |].
    cbn [List.length]. now rewrite IH.
  - rewrite Nat.eqb_refl. apply IH.
Qed.

Lemma groups_of_scan_length (df : DataFrame) :
  List.length (groups_of (scan Blank Blank Blank 0 df)) =
  (List.length (filter notna (column r_cls df))
   + match df with
     | [] => 0
     | (_, r) :: _ => if notna (r_cls r) then 0 else 1
     end)%nat.
Proof.
  destruct df as [| [i r] df]; [reflexivity |].
  cbn [scan groups_of m_grp column map filter snd].
  change (map (fun ir => r_cls (snd ir)) df) with (column r_cls df).
  rewrite blocks_scan_length.
  destruct (notna (r_cls r)); cbn [List.length]; lia.
Qed.

(** Every group after the open one starts at a row that has a
    classification of its own. *)
Lemma blocks_scan_started (df : DataFrame) :
  forall lc li ln k cur,
    Forall (fun g => notna (first (map (fun m => r_cls (m_row m)) (snd g)))
                     = true)
           (tl (blocks k cur (scan lc li ln k df))).
Proof.
  induction df as [| [i r] df IH]; intros lc li ln k cur; [constructor |].
  cbn [scan blocks m_grp].
  destruct (notna (r_cls r)) eqn:E.
  - destruct (Nat.eqb_spec (S k) k) as [Hk | _]; [lia |].
    cbn [tl].
    match goal with
    | |- Forall _ (blocks (S k) [?x] ?rest) =>
        destruct (blocks_head rest (S k) [x]) as (t & gs & Eb & _);
          pose proof (IH (fill (r_cls r) lc) (fill (r_item r) li)
                         (fill (r_no r) ln) (S k) [x]) as IH'
    end.
    rewrite Eb in IH' |- *. cbn [tl] in IH'.
    constructor; [| exact IH'].
    cbn [snd app map m_row r_cls first]. unfold fill. now rewrite E, E.
  - rewrite Nat.eqb_refl. apply IH.
Qed.

Lemma ffill_from_keeps (col : list Cell) :
  forall last i c,
    nth_error col i = Some c -> notna c = true ->
    nth_error (ffill_from last col) i = Some c.
Proof.
  induction col as [| c0 col IH]; intros last i c H Hc; [now destruct i |].
  destruct i as [| i]; simpl in *.
  - injection H as ->. now rewrite Hc.
  - now apply IH.
Qed.

(** Once a value has been seen, no filled cell is blank. *)
Lemma ffill_from_started_all (col : list Cell) :
  forall last, notna last = true ->
               Forall (fun c => notna c = true) (ffill_from last col).
Proof.
  induction col as [| c col IH]; intros last H; simpl; constructor.
  - destruct (notna c) eqn:E; assumption.
  - apply IH. destruct (notna c) eqn:E; assumption.
Qed.

Lemma ffill_from_no_blank_below (col : list Cell) :
  forall last i j ci cj,
    (i <= j)%nat ->
    nth_error (ffill_from last col) i = Some ci ->
    nth_error (ffill_from last col) j = Some cj ->
    notna ci = true -> notna cj = true.
Proof.
  induction col as [| c col IH]; intros last i j ci cj Hij Hi Hj Hci;
    [now destruct i |].
  destruct i as [| i]; simpl in Hi.
  - injection Hi as Hi. destruct j as [| j]; simpl in Hj.
    + congruence.
    + assert (Hall := ffill_from_started_all
                        col (if notna c then c else last)
                        ltac:(rewrite Hi; exact Hci)).
      rewrite Forall_forall in Hall. apply Hall.
      eapply nth_error_In. exact Hj.
  - destruct j as [| j]; [lia |]. simpl in Hj.
    eapply (IH _ i j); try eassumption. lia.
Qed.

(** The other columns and the index through the fill. *)
Lemma fill_ids_rest_from (df : DataFrame) :
  forall lc li ln,
    let filled :=
      assign set_no
        (assign set_item
           (assign set_cls df (ffill_from lc (column r_cls df)))
           (ffill_from li (column r_item df)))
        (ffill_from ln (column r_no df)) in
    map fst filled = map fst df /\
    map (fun ir => r_sheet (snd ir)) filled =
    map (fun ir => r_sheet (snd ir)) df /\
    column r_question filled = column r_question df /\
    column r_answer filled = column r_answer df.
Proof.
  induction df as [| [i r] df IH]; intros lc li ln; [now repeat split |].
  cbn.
  destruct (IH (if notna (r_cls r) then r_cls r else lc)
               (if notna (r_item r) then r_item r else li)
               (if notna (r_no r) then r_no r else ln)) as (E1 & E2 & E3 & E4).
  repeat split; f_equal; assumption.
Qed.

(** A row of the single pass is a row of the frame, filled. *)
Lemma scan_in (df : DataFrame) :
  forall lc li ln n m,
    In m (scan lc li ln n df) ->
    exists i r,
      In (i, r) df /\ m_original_row m = i + 2 /\
      r_sheet (m_row m) = r_sheet r /\
      r_question (m_row m) = r_question r /\
      r_answer (m_row m) = r_answer r.
Proof.
  induction df as [| [i r] df IH]; intros lc li ln n m Hin; [contradiction |].
  simpl in Hin. destruct Hin as [<- | Hin].
  - exists i, r. simpl. repeat split. now left.
  - destruct (IH _ _ _ _ _ Hin) as (i' & r' & Hin' & H).
    exists i', r'. split; [now right | exact H].
Qed.

Lemma groups_of_heads (rows : list MeltRow) (g : nat * list MeltRow) :
  In g (groups_of rows) ->
  exists m ms, snd g = m :: ms /\ In m rows.
Proof.
  intros Hg.
  assert (Hne : snd g <> []).
  { destruct rows as [| m0 rows]; [contradiction |]. simpl in Hg.
    pose proof (blocks_nonempty rows (m_grp m0) [m0] ltac:(discriminate)) as H.
    rewrite Forall_forall in H. now apply H. }
  destruct (snd g) as [| m ms] eqn:E; [contradiction |].
  exists m, ms. split; [reflexivity |].
  rewrite <- (concat_groups_of rows). apply in_concat.
  exists (snd g). split; [now apply in_map | rewrite E; now left].
Qed.

Lemma join_text_blank (str_of_num : Q -> string) (col : list Cell) :
  Forall (fun c => c = Blank) col -> join_text str_of_num col = EmptyString.
Proof.
  intros H. unfold join_text.
  replace (filter notna col) with (@nil Cell); [reflexivity |].
  induction H as [| c col -> _ IH]; simpl; [reflexivity | exact IH].
Qed.

Lemma labelled_nth (rows : list Row) :
  forall k i r,
    nth_error rows i = Some r ->
    nth_error (labelled k rows) i = Some (Z.of_nat (k + i), r).
Proof.
  unfold labelled.
  induction rows as [| r0 rows IH]; intros k i r H; [now destruct i |].
  destruct i as [| i]; simpl in *.
  - injection H as ->. now rewrite Nat.add_0_r.
  - rewrite (IH (S k) i r H). do 3 f_equal. lia.
Qed.

End MeltMore.

Module MeltMore2.
Import Melt Pass MeltFacts MeltMore.

Lemma Forall2_in_r {A B} (R : A -> B -> Prop) (l : list A) (l' : list B)
      (y : B) :
  Forall2 R l l' -> In y l' -> exists x, In x l /\ R x y.
Proof.
  induction 1 as [| x y0 l l' Hxy _ IH]; intros Hin; [contradiction |].
  destruct Hin as [<- | Hin].
  - exists x. split; [now left | exact Hxy].
  - destruct (IH Hin) as (x' & Hx' & Hr). exists x'. split; [now right | exact Hr].
Qed.

Lemma Forall2_tl {A B} (R : A -> B -> Prop) (l : list A) (l' : list B) :
  Forall2 R l l' -> Forall2 R (tl l) (tl l').
Proof. destruct 1; simpl; [constructor | assumption]. Qed.

Section Agg.
Variable str_of_num : Q -> string.

(** A group of the aggregate is a run of rows of the single pass. *)
Lemma melt_agg_in (df : DataFrame) (a : Agg) :
  In a (melt_agg str_of_num df) ->
  exists m ms,
    a = agg_group str_of_num (m :: ms) /\
    forall m', In m' (m :: ms) -> In m' (scan Blank Blank Blank 0 df).
Proof.
  unfold melt_agg. rewrite groupby_df_filled. intros Hin.
  apply in_map_iff in Hin. destruct Hin as (g & <- & Hg).
  destruct (groups_of_heads _ _ Hg) as (m & ms & E & _).
  exists m, ms. rewrite E. split; [reflexivity |].
  intros m' Hm'. rewrite <- (concat_groups_of (scan Blank Blank Blank 0 df)).
  apply in_concat. exists (snd g). split; [now apply in_map |].
  now rewrite E.
Qed.

Lemma melt_agg_started (df : DataFrame) :
  Forall (fun a => notna (a_cls a) = true) (tl (melt_agg str_of_num df)).
Proof.
  unfold melt_agg. rewrite groupby_df_filled.
  destruct df as [| [i r] df]; [constructor |].
  cbn [scan groups_of m_grp].
  match goal with
  | |- context [blocks ?k [?x] (scan ?c ?it ?no ?k df)] =>
      pose proof (blocks_scan_started df c it no k [x]) as H;
        destruct (blocks k [x] (scan c it no k df)) as [| g gs]
  end; [constructor |].
  cbn [map tl] in *. apply Forall_forall. intros a Ha.
  apply in_map_iff in Ha. destruct Ha as (g' & <- & Hg').
  rewrite Forall_forall in H. exact (H g' Hg').
Qed.

Lemma melt_agg_first_started (df : DataFrame) (i : Z) (r : Row) :
  notna (r_cls r) = true ->
  Forall (fun a => notna (a_cls a) = true)
         (melt_agg str_of_num ((i, r) :: df)).
Proof.
  intros Hr. pose proof (melt_agg_started ((i, r) :: df)) as Htl.
  revert Htl. unfold melt_agg. rewrite groupby_df_filled.
  cbn [scan groups_of m_grp].
  match goal with
  | |- context [blocks ?k [?x] ?rest] =>
      destruct (blocks_head rest k [x]) as (t & gs & Eb & _); rewrite Eb
  end.
  cbn [map tl]. intros Htl. constructor; [| exact Htl].
  cbn [snd app map m_row r_cls a_cls agg_group first].
  unfold fill. now rewrite Hr, Hr.
Qed.
End Agg.

End MeltMore2.

(** X12: the melt loses no row and repeats none: the original-row
    lists of the emitted groups, put end to end in group order, are the
    row numbers 2, 3, ... of the whole table in order, and no group is
    empty. *)
Theorem melt_partitions_rows (cast : IntCast) (str_of_num : Q -> string)
        (excel_file : list (string * list RawRow)) (gs : list MergeGroup) :
  melt_merged_rows cast str_of_num (df_all excel_file) = Ok gs ->
  List.concat (map g_original_row gs) =
  map (fun i => Z.of_nat i + 2) (seq 0 (List.length (df_all excel_file))) /\
  Forall (fun g => g_original_row g <> []) gs.
Proof.
  intros Hm. apply MeltFacts.mapM_ok_iff in Hm. split.
  - rewrite (JoinFacts.Forall2_original_rows _ _ _ Hm).
    rewrite MeltFacts.melt_agg_original_rows.
    rewrite <- (map_map fst (fun i => i + 2)), MeltFacts.df_all_index.
    now rewrite map_map.
  - apply Forall_forall. intros g Hg.
    destruct (MeltMore2.Forall2_in_r _ _ _ _ Hm Hg) as (a & Ha & Hag).
    apply MeltFacts.astype_no_int_ok in Hag.
    destruct Hag as (_ & _ & _ & _ & _ & _ & ->).
    destruct (MeltMore2.melt_agg_in _ _ _ Ha) as (m & ms & -> & _).
    discriminate.
Qed.

(** X13: the number of emitted groups is the number of rows whose
    classification cell is not blank, plus one when the table starts
    with a row whose classification cell is blank. *)
Theorem melt_group_count (cast : IntCast) (str_of_num : Q -> string) (df : DataFrame)
        (gs : list MergeGroup) :
  melt_merged_rows cast str_of_num df = Ok gs ->
  List.length gs =
  (List.length (filter notna (column r_cls df))
   + match df with
     | [] => 0
     | (_, r) :: _ => if notna (r_cls r) then 0 else 1
     end)%nat.
Proof.
  intros Hm. apply MeltMore.mapM_length in Hm. rewrite Hm.
  unfold melt_agg. rewrite MeltFacts.groupby_df_filled, length_map.
  apply MeltMore.groups_of_scan_length.
Qed.

(** X14: every emitted group but the first has a classification; the
    first has one too when the first row of the table has one. Only a
    group of leading rows can be emitted with a blank classification. *)
Theorem melt_groups_classified (cast : IntCast) (str_of_num : Q -> string) (df : DataFrame)
        (gs : list MergeGroup) :
  melt_merged_rows cast str_of_num df = Ok gs ->
  Forall (fun g => notna (g_cls g) = true) (tl gs) /\
  (notna (hd Blank (column r_cls df)) = true ->
   Forall (fun g => notna (g_cls g) = true) gs).
Proof.
  intros Hm. apply MeltFacts.mapM_ok_iff in Hm.
  assert (Hcls : forall aggs gs',
             Forall2 (fun a g => astype_no_int cast a = Ok g) aggs gs' ->
             Forall (fun a => notna (a_cls a) = true) aggs ->
             Forall (fun g => notna (g_cls g) = true) gs').
  { induction 1 as [| a g aggs gs' Hag _ IH]; intros Ha; constructor.
    - apply MeltFacts.astype_no_int_ok in Hag.
      destruct Hag as (_ & _ & -> & _). now inversion Ha.
    - apply IH. now inversion Ha. }
  split.
  - apply (Hcls (tl (melt_agg str_of_num df))).
    + now apply MeltMore2.Forall2_tl.
    + apply MeltMore2.melt_agg_started.
  - intros Hfirst. apply (Hcls _ _ Hm).
    destruct df as [| [i r] df]; [discriminate |].
    now apply MeltMore2.melt_agg_first_started.
Qed.

(** X15: the fill of lines 212-213 changes nothing but blank cells of
    the three identifying columns: the index, the sheet-name column,
    the question and the answer columns are as before, and every
    non-blank cell of the classification, item and sequence-number
    columns keeps its value. *)
Theorem fill_ids_only_fills_blanks (df : DataFrame) :
  map fst (fill_ids df) = map fst df /\
  map (fun ir => r_sheet (snd ir)) (fill_ids df) =
  map (fun ir => r_sheet (snd ir)) df /\
  column r_question (fill_ids df) = column r_question df /\
  column r_answer (fill_ids df) = column r_answer df /\
  (forall i c, notna c = true ->
               (nth_error (column r_cls df) i = Some c ->
                nth_error (column r_cls (fill_ids df)) i = Some c) /\
               (nth_error (column r_item df) i = Some c ->
                nth_error (column r_item (fill_ids df)) i = Some c) /\
               (nth_error (column r_no df) i = Some c ->
                nth_error (column r_no (fill_ids df)) i = Some c)).
Proof.
  destruct (MeltMore.fill_ids_rest_from df Blank Blank Blank)
    as (E1 & E2 & E3 & E4).
  destruct (MeltFacts.fill_ids_columns df) as (C1 & C2 & C3).
  split; [exact E1 |]. split; [exact E2 |]. split; [exact E3 |].
  split; [exact E4 |].
  intros i c Hc. rewrite C1, C2, C3.
  repeat split; intros H; now apply MeltMore.ffill_from_keeps.
Qed.

Lemma fill_ids_only_fills_blanks_witness :
  let row := fun c n =>
    {| r_sheet := "S"; r_cls := c; r_item := Blank; r_no := n;
       r_question := Text "q"; r_answer := Blank |} in
  let df := [(0, row (Text "A") (Num (1 # 1))); (1, row Blank Blank);
             (2, row (Text "B") Blank)] in
  nth_error (column r_cls (fill_ids df)) 2 = Some (Text "B") /\
  column r_no (fill_ids df) = [Num (1 # 1); Num (1 # 1); Num (1 # 1)].
Proof.
  intros row df. split; [| reflexivity].
  apply (proj1 (proj2 (proj2 (proj2 (proj2 (fill_ids_only_fills_blanks df))))
                      2%nat (Text "B") eq_refl)).
  reflexivity.
Defined.

(** X16: after the fill no blank cell lies below a value: in each of
    the three identifying columns, once a row has a value every later
    row has one. Blank cells remain only above the first value of the
    column. *)
Theorem fill_ids_no_blank_below (df : DataFrame) (i j : nat) (ci cj : Cell) :
  (i <= j)%nat -> notna ci = true ->
  (nth_error (column r_cls (fill_ids df)) i = Some ci ->
   nth_error (column r_cls (fill_ids df)) j = Some cj -> notna cj = true) /\
  (nth_error (column r_item (fill_ids df)) i = Some ci ->
   nth_error (column r_item (fill_ids df)) j = Some cj -> notna cj = true) /\
  (nth_error (column r_no (fill_ids df)) i = Some ci ->
   nth_error (column r_no (fill_ids df)) j = Some cj -> notna cj = true).
Proof.
  intros Hij Hci.
  destruct (MeltFacts.fill_ids_columns df) as (C1 & C2 & C3).
  rewrite C1, C2, C3. unfold ffill.
  repeat split; intros Hi Hj;
    eapply MeltMore.ffill_from_no_blank_below; eassumption.
Qed.

Lemma fill_ids_no_blank_below_witness :
  let row := fun c =>
    {| r_sheet := "S"; r_cls := c; r_item := Blank; r_no := Blank;
       r_question := Text "q"; r_answer := Blank |} in
  let df := [(0, row Blank); (1, row (Text "A")); (2, row Blank)] in
  column r_cls (fill_ids df) = [Blank; Text "A"; Text "A"] /\
  notna (Text "A") = true.
Proof.
  intros row df. split; [reflexivity |].
  apply (proj1 (fill_ids_no_blank_below df 1 2 (Text "A") (Text "A")
                                        ltac:(lia) eq_refl));
    reflexivity.
Defined.

(** X17: every emitted group is attributed to the sheet of its first
    row: its first original row number is the number of a row of the
    table, and its sheet name is the sheet name of that row, whatever
    the sheets of its other rows. *)
Theorem melt_group_sheet (cast : IntCast) (str_of_num : Q -> string) (df : DataFrame)
        (gs : list MergeGroup) (g : MergeGroup) :
  melt_merged_rows cast str_of_num df = Ok gs -> In g gs ->
  exists i r,
    In (i, r) df /\ hd_error (g_original_row g) = Some (i + 2) /\
    g_sheet g = r_sheet r.
Proof.
  intros Hm Hg. apply MeltFacts.mapM_ok_iff in Hm.
  destruct (MeltMore2.Forall2_in_r _ _ _ _ Hm Hg) as (a & Ha & Hag).
  apply MeltFacts.astype_no_int_ok in Hag.
  destruct Hag as (_ & -> & _ & _ & _ & _ & ->).
  destruct (MeltMore2.melt_agg_in _ _ _ Ha) as (m & ms & -> & Hin).
  destruct (MeltMore.scan_in _ _ _ _ _ _ (Hin m (or_introl eq_refl)))
    as (i & r & Hir & Hrow & Hsheet & _).
  exists i, r. split; [exact Hir |]. simpl. now rewrite Hrow, Hsheet.
Qed.

Lemma melt_group_sheet_witness :
  let top := {| raw_cls := Text "A"; raw_item := Text "i"; raw_no := Num (1 # 1);
                raw_question := Text "q"; raw_answer := Text "a" |} in
  let below := {| raw_cls := Blank; raw_item := Blank; raw_no := Blank;
                  raw_question := Text "q"; raw_answer := Text "a" |} in
  let df := df_all [("S1", [top]); ("S2", [below])] in
  exists g i r,
    melt_merged_rows Sample.cast (fun _ => EmptyString) df = Ok [g] /\
    g_original_row g = [2; 3] /\
    In (i, r) df /\ hd_error (g_original_row g) = Some (i + 2) /\
    g_sheet g = r_sheet r /\ g_sheet g = "S1".
Proof.
  intros top below df.
  eexists.
  destruct (melt_group_sheet Sample.cast (fun _ => EmptyString) df _ _ eq_refl
                             (or_introl eq_refl)) as (i & r & H1 & H2 & H3).
  exists i, r. split; [reflexivity |]. split; [reflexivity |].
  split; [exact H1 |]. split; [exact H2 |]. split; [exact H3 | reflexivity].
Defined.

Module NumberingFacts.
Import Melt Pass.

Lemma labelled_length (rows : list Row) (k : nat) :
  List.length (labelled k rows) = List.length rows.
Proof.
  unfold labelled.
  now rewrite length_combine, length_map, length_seq, Nat.min_id.
Qed.

Lemma scan_nth (df : DataFrame) :
  forall lc li ln k n z row,
    nth_error df n = Some (z, row) ->
    exists m, nth_error (scan lc li ln k df) n = Some m /\
              m_original_row m = z + 2 /\
              r_sheet (m_row m) = r_sheet row.
Proof.
  induction df as [| [i0 r0] df IH]; intros lc li ln k n z row H;
    [now destruct n |].
  destruct n as [| n]; simpl in H |- *.
  - injection H as -> ->. eexists. split; [reflexivity |]. now split.
  - now apply IH.
Qed.

Lemma concat_with_sheet_length (sheets : list (string * list RawRow)) :
  List.length
    (List.concat (map (fun sh => map (with_sheet (fst sh)) (snd sh)) sheets))
  = List.length (List.concat (map snd sheets)).
Proof.
  induction sheets as [| [n rs] sheets IH]; simpl; [reflexivity |].
  now rewrite !length_app, length_map, IH.
Qed.

End NumberingFacts.

(** X18: how rows are numbered across sheets: row [i] (from 0) of a
    sheet is labelled with its position in the concatenated table and
    gets as original row number [i + 2] plus the number of data rows of
    all the sheets before it; its sheet-name column holds the name of
    its sheet. On the first sheet this is the row number on the sheet. *)
Theorem df_all_row_numbers (before after : list (string * list RawRow))
        (sheet_name : string) (rows : list RawRow) (i : nat) (r : RawRow) :
  nth_error rows i = Some r ->
  let excel_file := before ++ (sheet_name, rows) :: after in
  let offset := List.length (List.concat (map snd before)) in
  nth_error (df_all excel_file) (offset + i) =
  Some (Z.of_nat (offset + i), with_sheet sheet_name r) /\
  exists m,
    nth_error (df_filled (df_all excel_file)) (offset + i) = Some m /\
    m_original_row m = Z.of_nat i + 2 + Z.of_nat offset /\
    r_sheet (m_row m) = sheet_name.
Proof.
  intros Hr excel_file offset.
  assert (Hi : (i < List.length rows)%nat)
    by (apply nth_error_Some; congruence).
  assert (Hnth : nth_error (df_all excel_file) (offset + i) =
                 Some (Z.of_nat (offset + i), with_sheet sheet_name r)).
  { unfold df_all, concat_ignore_index, excel_file.
    rewrite map_app, concat_app. cbn [map List.concat fst snd].
    match goal with
    | |- nth_error (combine (map Z.of_nat (seq 0 (List.length ?l))) ?l) _ = _ =>
        change (combine (map Z.of_nat (seq 0 (List.length l))) l)
          with (Pass.labelled 0 l)
    end.
    rewrite MeltFacts.labelled_app, NumberingFacts.concat_with_sheet_length.
    fold offset. simpl Nat.add.
    rewrite nth_error_app2;
      rewrite NumberingFacts.labelled_length,
              NumberingFacts.concat_with_sheet_length; fold offset; [| lia].
    replace (offset + i - offset)%nat with i by lia.
    rewrite MeltFacts.labelled_app.
    rewrite nth_error_app1
      by (rewrite NumberingFacts.labelled_length, length_map; exact Hi).
    apply MeltMore.labelled_nth. now apply map_nth_error. }
  split; [exact Hnth |].
  rewrite MeltFacts.df_filled_scan.
  destruct (NumberingFacts.scan_nth _ Blank Blank Blank 0%nat _ _ _ Hnth)
    as (m & Hm & Hrow & Hs).
  exists m. split; [exact Hm |]. split; [| exact Hs].
  rewrite Hrow. lia.
Qed.

Lemma df_all_row_numbers_witness :
  let row := {| raw_cls := Text "c"; raw_item := Text "i"; raw_no := Num (1 # 1);
                raw_question := Text "q"; raw_answer := Text "a" |} in
  let excel_file := [("S1", [row; row; row])] ++ ("S2", [row; row]) :: [] in
  nth_error (df_all excel_file) (3 + 1) = Some (4, with_sheet "S2" row) /\
  exists m,
    nth_error (df_filled (df_all excel_file)) (3 + 1) = Some m /\
    m_original_row m = 1 + 2 + 3 /\ r_sheet (m_row m) = "S2".
Proof.
  intros row excel_file.
  apply (df_all_row_numbers [("S1", [row; row; row])] [] "S2" [row; row]
                            1%nat row eq_refl).
Defined.

(** X19: a group none of whose rows has a question text gets the empty
    string as its question, and likewise for the answer: the joined
    text of no cells is "", never a missing value. *)
Theorem melt_blank_text_is_empty (cast : IntCast) (str_of_num : Q -> string) (df : DataFrame)
        (gs : list MergeGroup) (g : MergeGroup) :
  melt_merged_rows cast str_of_num df = Ok gs -> In g gs ->
  ((forall i r, In (i, r) df -> In (i + 2) (g_original_row g) ->
                r_question r = Blank) ->
   g_question g = EmptyString) /\
  ((forall i r, In (i, r) df -> In (i + 2) (g_original_row g) ->
                r_answer r = Blank) ->
   g_answer g = EmptyString).
Proof.
  intros Hm Hg. apply MeltFacts.mapM_ok_iff in Hm.
  destruct (MeltMore2.Forall2_in_r _ _ _ _ Hm Hg) as (a & Ha & Hag).
  apply MeltFacts.astype_no_int_ok in Hag.
  destruct Hag as (_ & _ & _ & _ & -> & -> & ->).
  destruct (MeltMore2.melt_agg_in _ _ _ Ha) as (m & ms & -> & Hin).
  cbn [a_question a_answer a_original_row agg_group].
  split; intros Hblank; apply MeltMore.join_text_blank, Forall_forall;
    intros c Hc; apply in_map_iff in Hc; destruct Hc as (m' & <- & Hm');
    destruct (MeltMore.scan_in _ _ _ _ _ _ (Hin m' Hm'))
      as (i & r & Hir & Hrow & _ & Hq & Han);
    [rewrite Hq | rewrite Han]; apply (Hblank i r Hir);
    rewrite <- Hrow; now apply in_map.
Qed.

Lemma melt_blank_text_is_empty_witness :
  let row := {| raw_cls := Text "c"; raw_item := Text "i"; raw_no := Num (1 # 1);
                raw_question := Text "q"; raw_answer := Blank |} in
  let df := df_all [("S1", [row])] in
  exists g,
    melt_merged_rows Sample.cast (fun _ => EmptyString) df = Ok [g] /\
    g_question g = "q" /\ g_answer g = EmptyString.
Proof.
  intros row df. eexists. split; [reflexivity |]. split; [reflexivity |].
  refine (proj2 (melt_blank_text_is_empty Sample.cast (fun _ => EmptyString) df _ _
                                          eq_refl (or_introl eq_refl)) _).
  intros i r [[= <- <-] | []] _. reflexivity.
Defined.

(** ** Witnesses on the small workbook *)

Lemma image_map_keys_unique_witness :
  exists reg,
    extract_images Sample.pkg = Ok reg /\ NoDup (map fst (image_map reg)).
Proof.
  eexists. split; [vm_compute; reflexivity |].
  apply (image_map_keys_unique Sample.pkg). vm_compute. reflexivity.
Defined.

Lemma image_map_sound_witness :
  exists reg drawing_xml anchor image_file,
    extract_images Sample.pkg = Ok reg /\
    In drawing_xml (namelist Sample.pkg) /\
    In anchor (anchors_of Sample.pkg drawing_xml) /\
    In ("xl/media/" ++ image_file)%string (namelist Sample.pkg) /\
    "json_output/image/S1_B2_image2.png" =
    save_path (save_name "S1"
                         (cell_name (from_col anchor) (from_row anchor))
                         image_file).
Proof.
  destruct (image_map_sound
              Sample.pkg
              {| image_map :=
                   [(("S1", 2), ["json_output/image/S1_A2_image1.png";
                                 "json_output/image/S1_B2_image2.png"])];
                 saved := ["S1_A2_image1.png"; "S1_B2_image2.png"] |}
              ltac:(vm_compute; reflexivity)
              ("S1", 2)
              ["json_output/image/S1_A2_image1.png";
               "json_output/image/S1_B2_image2.png"]
              "json_output/image/S1_B2_image2.png"
              ltac:(left; reflexivity) ltac:(right; left; reflexivity))
    as (drawing_xml & anchor & image_file & H1 & _ & H3 & H4 & _ & _ & _ & H8).
  eexists. exists drawing_xml, anchor, image_file.
  split; [vm_compute; reflexivity |].
  split; [exact H1 |]. split; [exact H3 |]. split; [exact H4 | exact H8].
Defined.

Lemma image_map_lists_saved_witness :
  exists reg,
    extract_images Sample.pkg = Ok reg /\
    Permutation (flat_map snd (image_map reg)) (map save_path (saved reg)).
Proof.
  eexists. split; [vm_compute; reflexivity |].
  apply (image_map_lists_saved Sample.pkg). vm_compute. reflexivity.
Defined.

Lemma melt_partitions_rows_witness :
  exists gs,
    melt_merged_rows Sample.cast (fun _ => EmptyString) (df_all Sample.excel_file) = Ok gs /\
    List.concat (map g_original_row gs) = [2; 3; 4; 5] /\
    Forall (fun g => g_original_row g <> []) gs.
Proof.
  eexists. split; [vm_compute; reflexivity |].
  apply (melt_partitions_rows Sample.cast (fun _ => EmptyString) Sample.excel_file).
  vm_compute. reflexivity.
Defined.

Lemma melt_group_count_witness :
  exists gs,
    melt_merged_rows Sample.cast (fun _ => EmptyString) (df_all Sample.excel_file) = Ok gs /\
    List.length gs = 2%nat.
Proof.
  eexists. split; [vm_compute; reflexivity |].
  apply (melt_group_count Sample.cast (fun _ => EmptyString) (df_all Sample.excel_file)).
  vm_compute. reflexivity.
Defined.

Lemma melt_groups_classified_witness :
  exists gs,
    melt_merged_rows Sample.cast (fun _ => EmptyString) (df_all Sample.excel_file) = Ok gs /\
    Forall (fun g => notna (g_cls g) = true) gs.
Proof.
  eexists. split; [vm_compute; reflexivity |].
  apply (proj2 (melt_groups_classified Sample.cast (fun _ => EmptyString)
                                       (df_all Sample.excel_file) _
                                       ltac:(vm_compute; reflexivity))).
  reflexivity.
Defined.

(** ** Joining images to records, continued *)

(** X20: a path is in the image list of a record exactly when it is
    registered under a key of the record's sheet whose row is one of the
    record's original rows; so an image registered only under keys that
    match no group (an orphan) is in no record. *)
Theorem record_images_iff (image_map : list ((string * Z) * list string))
        (gs : list MergeGroup) (path : string) :
  (forall g,
      In path (image_urls (record_of image_map g)) <->
      exists key paths,
        In (key, paths) image_map /\ In path paths /\ joins key g) /\
  ((forall key paths,
       In (key, paths) image_map -> In path paths ->
       forall g, In g gs -> ~ joins key g) ->
   forall g, In g gs -> ~ In path (image_urls (record_of image_map g))).
Proof.
  assert (Hiff : forall g,
             In path (image_urls (record_of image_map g)) <->
             exists key paths,
               In (key, paths) image_map /\ In path paths /\ joins key g).
  { intros g. simpl. rewrite JoinFacts.images_for_in. unfold joins.
    split; intros (key & paths & H1 & H2 & H3 & H4);
      exists key, paths; repeat split; assumption. }
  split; [exact Hiff |].
  intros Horphan g Hg Hin. apply Hiff in Hin.
  destruct Hin as (key & paths & H1 & H2 & H3).
  exact (Horphan key paths H1 H2 g Hg H3).
Qed.

Lemma record_images_iff_witness :
  let image_map := [(("S1", 9), ["json_output/image/S1_A9_image1.png"])] in
  exists g1 g2,
    melt_merged_rows Sample.cast (fun _ => EmptyString) (df_all Sample.excel_file)
    = Ok [g1; g2] /\
    ~ In "json_output/image/S1_A9_image1.png"
         (image_urls (record_of image_map g1)).
Proof.
  intros image_map. do 2 eexists. split; [vm_compute; reflexivity |].
  match goal with
  | |- ~ In _ (image_urls (record_of _ ?g)) =>
      refine (proj2 (record_images_iff image_map [g]
                                       "json_output/image/S1_A9_image1.png")
                    _ g (or_introl eq_refl))
  end.
  intros key paths [[= <- <-] | []] _ g [<- | []] [_ Hrow].
  vm_compute in Hrow. intuition discriminate.
Defined.

(** X21: the paths of an [image_map] entry whose key matches a record
    enter the record's image list together and in their registered
    order, entries following one another in the order of [image_map]:
    two images anchored in one row of the group are listed in scan
    order. *)
Theorem record_images_in_order (image_map : list ((string * Z) * list string))
        (g : MergeGroup) (key : string * Z) (paths : list string) :
  In (key, paths) image_map -> joins key g ->
  exists before after,
    image_urls (record_of image_map g) = before ++ paths ++ after /\
    (forall m1 m2,
        image_map = m1 ++ m2 ->
        image_urls (record_of image_map g) =
        image_urls (record_of m1 g) ++ image_urls (record_of m2 g)).
Proof.
  intros Hin [Hs Hr].
  destruct (in_split _ _ Hin) as (m1 & m2 & ->).
  exists (images_for m1 (g_sheet g) (g_original_row g)),
         (images_for m2 (g_sheet g) (g_original_row g)).
  split.
  - simpl. unfold images_for. rewrite flat_map_app. simpl.
    rewrite Hs, String.eqb_refl. simpl.
    replace (existsb (Z.eqb (snd key)) (g_original_row g)) with true;
      [reflexivity |].
    symmetry. apply existsb_exists. exists (snd key).
    split; [exact Hr | apply Z.eqb_refl].
  - intros m1' m2' E. simpl. unfold images_for.
    now rewrite E, flat_map_app.
Qed.

Lemma record_images_in_order_witness :
  exists reg g1 g2,
    extract_images Sample.pkg = Ok reg /\
    melt_merged_rows Sample.cast (fun _ => EmptyString) (df_all Sample.excel_file)
    = Ok [g1; g2] /\
    exists before after,
      image_urls (record_of (image_map reg) g1) =
      before ++ ["json_output/image/S1_A2_image1.png";
                 "json_output/image/S1_B2_image2.png"] ++ after.
Proof.
  do 3 eexists. split; [vm_compute; reflexivity |].
  split; [vm_compute; reflexivity |].
  destruct (record_images_in_order
              [(("S1", 2), ["json_output/image/S1_A2_image1.png";
                            "json_output/image/S1_B2_image2.png"])]
              {| g_sheet := "S1"; g_cls := Text "A"; g_item := Text "A";
                 g_no := 1;
                 g_question := String "q" (String "1" (String "010" "q1b"));
                 g_answer := "a1"; g_original_row := [2; 3] |}
              ("S1", 2)
              ["json_output/image/S1_A2_image1.png";
               "json_output/image/S1_B2_image2.png"]
              ltac:(left; reflexivity)
              ltac:(split; [reflexivity | left; reflexivity]))
    as (before & after & H & _).
  exists before, after. exact H.
Defined.

(** ** Record files *)

Module FileFacts.
Import Str Melt Assemble NameFacts.

Lemma json_name_chars (stem : string) (g : MergeGroup) :
  chars (json_name stem g) =
  (chars stem ++ ["_"%char])
  ++ ((chars (g_sheet g) ++ chars "_QA")
      ++ "_"%char :: chars (str_of_int (g_no g)))
  ++ chars ".json".
Proof.
  unfold json_name. rewrite !chars_app. simpl.
  rewrite <- !app_assoc. simpl. reflexivity.
Qed.

Lemma numeral_no_underscore (n : Z) :
  ~ In "_"%char (chars (str_of_int n)).
Proof.
  intros Hin. pose proof (str_of_int_chars n) as H.
  rewrite Forall_forall in H.
  now apply (numeral_not_underscore _ (H _ Hin)).
Qed.

End FileFacts.

(** X22: for one source file, two merge groups get the same record
    file name exactly when they have the same sheet name and the same
    sequence number: records that differ in either are written to
    different files, and records that agree in both go to one file, the
    later written over the earlier. *)
Theorem json_name_same_file (stem : string) (g1 g2 : MergeGroup) :
  json_name stem g1 = json_name stem g2 <->
  g_sheet g1 = g_sheet g2 /\ g_no g1 = g_no g2.
Proof.
  split.
  - intros E. apply (f_equal NameFacts.chars) in E.
    rewrite !FileFacts.json_name_chars in E.
    apply app_inv_head in E. apply app_inv_tail in E.
    apply NameFacts.split_last in E;
      try apply FileFacts.numeral_no_underscore.
    destruct E as [Es En].
    apply app_inv_tail in Es.
    apply NameFacts.chars_inj in Es, En.
    split; [exact Es | now apply NameFacts.str_of_int_inj].
  - intros [Es En]. unfold json_name. now rewrite Es, En.
Qed.

(** ** Credentials *)

(** X24: [validate] on the credentials read from the environment
    returns normally exactly when each of CLIENT_ID, CLIENT_SECRET,
    TENANT_ID and SITE_INFO_URL is set to a non-empty value; otherwise
    it raises a [ValueError] whose message lists the variables that are
    unset or empty, an unset variable and an empty one alike, in that
    fixed order, separated by ", ". *)
Theorem validate_from_env (environ : string -> option string) :
  let unset := fun name =>
    match environ name with
    | Some v => Uploader.is_empty v
    | None => true
    end in
  Uploader.validate (Uploader.from_env environ) =
  match filter unset ["CLIENT_ID"; "CLIENT_SECRET"; "TENANT_ID";
                      "SITE_INFO_URL"] with
  | [] => Uploader.Returns
  | names =>
      Uploader.RaisesValueError
        (Uploader.message_prefix ++ Str.join ", " names)%string
  end.
Proof.
  cbv zeta.
  unfold Uploader.validate, Uploader.missing, Uploader.from_env,
    Uploader.env_or_empty.
  cbn [Uploader.client_id Uploader.client_secret Uploader.tenant_id
       Uploader.site_info_url filter].
  destruct (environ "CLIENT_ID") as [v1 |];
    destruct (environ "CLIENT_SECRET") as [v2 |];
    destruct (environ "TENANT_ID") as [v3 |];
    destruct (environ "SITE_INFO_URL") as [v4 |];
    try destruct (Uploader.is_empty v1);
    try destruct (Uploader.is_empty v2);
    try destruct (Uploader.is_empty v3);
    try destruct (Uploader.is_empty v4);
    reflexivity.
Qed.

Lemma json_name_same_file_witness :
  let g := fun sheet no =>
    {| g_sheet := sheet; g_cls := Text "c"; g_item := Blank; g_no := no;
       g_question := EmptyString; g_answer := EmptyString;
       g_original_row := [2] |} in
  json_name "book" (g "S1_QA_1" 2) = "book_S1_QA_1_QA_2.json" /\
  json_name "book" (g "S1" 12) <> json_name "book" (g "S11" 2).
Proof.
  intros g. split; [reflexivity |].
  intros E. apply (proj1 (json_name_same_file "book" _ _)) in E.
  destruct E as [E _]. discriminate.
Defined.
